(** * Battle viewer: segmentation, selection, rewriting and record building

    A shallow embedding of [Data/battle_viewer.py].

    Python [str] values are modelled by [string]; a character is a code
    point below 256 (the Latin-1 range of [str]).  A file is modelled by
    its decoded content; text-mode reading translates newlines first.
    A generator is modelled by the finite list of the values it yields,
    in emission order.  Python exceptions are values of [exn]; a call that
    may raise returns [exn + A]. *)

From Stdlib Require Import ZArith Lia Ascii String Bool DecimalString.
From stdpp Require Import base list strings.
From stdpp Require Import sorting.

Local Open Scope Z_scope.

(** ** Text primitives *)

Module Text.

Definition LF : ascii := "010"%char.
Definition CR : ascii := "013"%char.
Definition PIPE : ascii := "|"%char.

(** [str.isspace] on one character: tab to carriage return, the four
    separators 28..31, space, NEL (133) and no-break space (160). *)
Definition isspace (c : ascii) : bool :=
  let n := nat_of_ascii c in
  ((9 <=? n)%nat && (n <=? 13)%nat) || ((28 <=? n)%nat && (n <=? 32)%nat)
  || (n =? 133)%nat || (n =? 160)%nat.

(** Trimming by a given notion of white space. *)
Section trim.
Variable space : ascii -> bool.

Fixpoint ltrim (s : string) : string :=
  match s with
  | EmptyString => EmptyString
  | String c r => if space c then ltrim r else s
  end.

Fixpoint rtrim (s : string) : string :=
  match s with
  | EmptyString => EmptyString
  | String c r =>
      match rtrim r with
      | EmptyString => if space c then EmptyString else String c EmptyString
      | r' => String c r'
      end
  end.

Definition trim (s : string) : string := rtrim (ltrim s).
End trim.

(** [s.strip()] *)
Definition strip (s : string) : string := trim isspace s.

(** Truth value of a [str]: the empty string is falsy. *)
Definition truthy (s : string) : bool :=
  match s with EmptyString => false | String _ _ => true end.

(** [c.lower()] on one character: the ASCII capitals and the Latin-1
    capitals 192..222 except the multiplication sign 215. *)
Definition lower_char (c : ascii) : ascii :=
  let n := nat_of_ascii c in
  if ((65 <=? n)%nat && (n <=? 90)%nat)
     || ((192 <=? n)%nat && (n <=? 222)%nat && negb (n =? 215)%nat)
  then ascii_of_nat (n + 32) else c.

Fixpoint lower (s : string) : string :=
  match s with
  | EmptyString => EmptyString
  | String c r => String (lower_char c) (lower r)
  end.

(** [s.startswith(p)] *)
Definition startswith (s p : string) : bool := String.prefix p s.

(** [needle in hay] *)
Fixpoint contains (needle hay : string) : bool :=
  String.prefix needle hay ||
  match hay with
  | EmptyString => false
  | String _ r => contains needle r
  end.

(** [s.split(sep)] for a one-character separator: never empty, one more
    part than there are separators. *)
Fixpoint split (sep : ascii) (s : string) : list string :=
  match s with
  | EmptyString => [EmptyString]
  | String c r =>
      if Ascii.eqb c sep then EmptyString :: split sep r
      else match split sep r with
           | p :: ps => String c p :: ps
           | [] => [String c EmptyString]
           end
  end.

(** [sep.join(parts)] *)
Fixpoint join (sep : string) (parts : list string) : string :=
  match parts with
  | [] => EmptyString
  | p :: ps =>
      match ps with
      | [] => p
      | _ :: _ => p +:+ sep +:+ join sep ps
      end
  end.

(** Universal newlines of text mode: CR LF and a lone CR both read as LF. *)
Fixpoint universal_newlines (s : string) : string :=
  match s with
  | EmptyString => EmptyString
  | String c r =>
      if Ascii.eqb c CR then
        String LF (match r with
                   | String c' r' =>
                       if Ascii.eqb c' LF then universal_newlines r'
                       else universal_newlines r
                   | EmptyString => EmptyString
                   end)
      else String c (universal_newlines r)
  end.

(** The lines a text file iterates over, each with its newline removed
    ([raw.rstrip("\n")]); a final line needs no newline, and a final
    newline starts no further line. *)
Fixpoint splitlines (s : string) : list string :=
  match s with
  | EmptyString => []
  | String c r =>
      if Ascii.eqb c LF then EmptyString :: splitlines r
      else match splitlines r with
           | l :: ls => String c l :: ls
           | [] => [String c EmptyString]
           end
  end.

(** [str(n)] for an [int]. *)
Definition str_of_int (n : Z) : string := NilZero.string_of_int (Z.to_int n).

(** [a or b] on an optional string: [None] and the empty string are falsy. *)
Definition or_else (a : option string) (b : string) : string :=
  match a with
  | Some s => if truthy s then s else b
  | None => b
  end.

End Text.

Import Text.

(** A file on disk: its decoded content. *)
Definition file := string.

(** [path.read_text(...)] *)
Definition read_text (f : file) : string := universal_newlines f.

(** [for raw in f: line = raw.rstrip("\n")] *)
Definition read_lines (f : file) : list string := splitlines (universal_newlines f).

Definition START : string := "[[[[[".
Definition END : string := "]]]]]".
Definition UNKNOWN_MATCHUP : string := "UNKNOWN_MATCHUP".

Record BattleBlock := mkBlock {
  header : string;
  protocol_lines : list string
}.

(** ** Marked mode *)

(** The four local variables of [iter_battles_marked]. *)
Record locals := mkLocals {
  in_block : bool;
  waiting_for_header : bool;
  cur_header : option string;
  cur_lines : list string
}.

Definition outside : locals := mkLocals false false None [].
Definition awaiting : locals := mkLocals true true None [].

(** One iteration of the loop body: the next locals and the block yielded,
    if any. *)
Definition marked_step (st : locals) (line : string) : locals * option BattleBlock :=
  if negb (in_block st) then
    if String.eqb (strip line) START then (awaiting, None) else (st, None)
  else if String.eqb (strip line) END then
    (outside, Some (mkBlock (or_else (cur_header st) UNKNOWN_MATCHUP) (cur_lines st)))
  else if waiting_for_header st then
    if truthy (strip line)
    then (mkLocals (in_block st) false (Some (strip line)) (cur_lines st), None)
    else (st, None)
  else if startswith line "|"
  then (mkLocals (in_block st) (waiting_for_header st) (cur_header st)
                 (cur_lines st ++ [line]), None)
  else (st, None).

(** The loop from given locals: the blocks yielded and the final locals. *)
Fixpoint marked_run (st : locals) (lines : list string) : list BattleBlock * locals :=
  match lines with
  | [] => ([], st)
  | line :: rest =>
      let '(st', y) := marked_step st line in
      let '(bs, fin) := marked_run st' rest in
      (match y with Some b => b :: bs | None => bs end, fin)
  end.

Definition iter_battles_marked (f : file) : list BattleBlock :=
  fst (marked_run outside (read_lines f)).

(** ** Fallback mode *)

(** One iteration of the loop of [parse_single_battle_fallback] over the
    locals [header] and [protocol_lines]. *)
Definition fallback_step (st : option string * list string) (line : string)
  : option string * list string :=
  if negb (truthy (strip line)) then st
  else if bool_decide (st.1 = None) && negb (startswith line "|")
  then (Some (strip line), st.2)
  else if startswith line "|" then (st.1, st.2 ++ [line])
  else st.

Definition parse_single_battle_fallback (f : file) : BattleBlock :=
  let st := fold_left fallback_step (read_lines f) (None, []) in
  mkBlock (or_else st.1 UNKNOWN_MATCHUP) st.2.

(** ** Mode selection *)

Definition iter_battles (f : file) : list BattleBlock :=
  let text := read_text f in
  if contains START text && contains END text
  then iter_battles_marked f
  else [parse_single_battle_fallback f].

(** ** Selection *)

Inductive exn :=
| IndexError (msg : string)
| ValueError (msg : string).

Definition QUOTE : string := String (ascii_of_nat 34) EmptyString.

(** The loop of [get_battle_by_index] over [enumerate(...)], the counter
    being [i]. *)
Fixpoint index_loop (index i : Z) (blocks : list BattleBlock) : option BattleBlock :=
  match blocks with
  | [] => None
  | block :: rest =>
      if i =? index then Some block else index_loop index (i + 1) rest
  end.

Definition get_battle_by_index (f : file) (index : Z) : exn + BattleBlock :=
  match index_loop index 0 (iter_battles f) with
  | Some block => inr block
  | None => inl (IndexError ("Battle index " +:+ str_of_int index +:+ " out of range."))
  end.

(** The loop of [get_battle_by_matchup], the counter being [hits]. *)
Fixpoint matchup_loop (target : string) (occurrence hits : Z)
    (blocks : list BattleBlock) : option BattleBlock :=
  match blocks with
  | [] => None
  | block :: rest =>
      if String.eqb (lower (strip (header block))) target then
        if hits =? occurrence then Some block
        else matchup_loop target occurrence (hits + 1) rest
      else matchup_loop target occurrence hits rest
  end.

Definition get_battle_by_matchup (f : file) (matchup : string) (occurrence : Z)
  : exn + BattleBlock :=
  let target := lower (strip matchup) in
  match matchup_loop target occurrence 0 (iter_battles f) with
  | Some block => inr block
  | None =>
      inl (ValueError ("No matchup " +:+ QUOTE +:+ matchup +:+ QUOTE
                       +:+ " found at occurrence " +:+ str_of_int occurrence +:+ "."))
  end.

(** ** Overriding player names and avatars *)

Definition fix_player_line (line : string) (name avatar : option string) : string :=
  let parts := split PIPE line in
  let parts := parts ++ replicate (6 - length parts)%nat EmptyString in
  let parts := match name with Some n => <[3%nat := n]> parts | None => parts end in
  let parts := match avatar with Some a => <[4%nat := a]> parts | None => parts end in
  join "|" parts.

(** [l.insert(i, x)] for [0 <= i]. *)
Definition list_insert_at {A} (i : nat) (x : A) (l : list A) : list A :=
  take i l ++ x :: drop i l.

Section override.
Variables p1_name p2_name p1_avatar p2_avatar : option string.

(** Iteration [i] of the first loop: [out] is updated in place. *)
Definition rewrite_step (st : list string * bool * bool) (i : nat)
  : list string * bool * bool :=
  let '(out, found_p1, found_p2) := st in
  match out !! i with
  | None => st
  | Some ln =>
      if startswith ln "|player|p1|"
      then (<[i := fix_player_line ln p1_name p1_avatar]> out, true, found_p2)
      else if startswith ln "|player|p2|"
      then (<[i := fix_player_line ln p2_name p2_avatar]> out, found_p1, true)
      else st
  end.

(** The second loop: the index of the first [|start|] line, else 0. *)
Fixpoint start_index (i : nat) (out : list string) : option nat :=
  match out with
  | [] => None
  | ln :: rest =>
      if startswith ln "|start|" then Some i else start_index (S i) rest
  end.

Definition synth_player (side : string) (name avatar : option string) : string :=
  "|player|" +:+ side +:+ "|" +:+ or_else name side +:+ "|" +:+ or_else avatar "1" +:+ "|".

Definition override_players (protocol_lines : list string) : list string :=
  let out := protocol_lines in
  let '(out, found_p1, found_p2) :=
    fold_left rewrite_step (seq 0 (length out)) (out, false, false) in
  let insert_at := default 0%nat (start_index 0 out) in
  let out :=
    if negb found_p1 && (bool_decide (p1_name <> None) || bool_decide (p1_avatar <> None))
    then list_insert_at insert_at (synth_player "p1" p1_name p1_avatar) out
    else out in
  let out :=
    if negb found_p2 && (bool_decide (p2_name <> None) || bool_decide (p2_avatar <> None))
    then list_insert_at insert_at (synth_player "p2" p2_name p2_avatar) out
    else out in
  out.
End override.

(** ** Building the replay record *)

(** [int(s)] for a [str]: surrounding whitespace is ignored, one sign is
    allowed, underscores may separate digits, and more than 4300 digits are
    refused; [None] stands for the [ValueError]. *)
Module PyInt.

Definition is_digit (c : ascii) : bool :=
  let n := nat_of_ascii c in (48 <=? n)%nat && (n <=? 57)%nat.

Definition digit_val (c : ascii) : Z := Z.of_nat (nat_of_ascii c) - 48.

Fixpoint digits (s : string) (after_digit : bool) : option (list Z) :=
  match s with
  | EmptyString => if after_digit then Some [] else None
  | String c r =>
      if is_digit c then cons (digit_val c) <$> digits r true
      else if Ascii.eqb c "_" then
        (if after_digit then digits r false else None)
      else None
  end.

Definition magnitude (s : string) : option Z :=
  ds ← digits s false;
  if (length ds <=? 4300)%nat
  then Some (fold_left (fun acc d => 10 * acc + d) ds 0)
  else None.

(** The white space [int] skips: the C one, and the Unicode spaces above
    127, which are read as blanks.  The separators 28..31 are not skipped. *)
Definition int_space (c : ascii) : bool :=
  let n := nat_of_ascii c in
  ((9 <=? n)%nat && (n <=? 13)%nat) || (n =? 32)%nat || (n =? 133)%nat || (n =? 160)%nat.

Definition int (s : string) : option Z :=
  match trim int_space s with
  | String "-" r => Z.opp <$> magnitude r
  | String "+" r => magnitude r
  | r => magnitude r
  end.

End PyInt.

(** [datetime.fromtimestamp(epoch, tz=timezone.utc)] followed by
    [strftime("%a %b %d %Y %H:%M:%S")], in the C locale, as on a POSIX
    platform with a 64-bit [time_t]: every instant of the years 1 to 9999
    converts, any other raises.  Years are written in four digits. *)
Module Calendar.

(** Year, month and day of a count of days since 1970-01-01, in the
    proleptic Gregorian calendar. *)
Definition civil (days : Z) : Z * Z * Z :=
  let z := days + 719468 in
  let era := z / 146097 in
  let doe := z - era * 146097 in
  let yoe := (doe - doe / 1460 + doe / 36524 - doe / 146096) / 365 in
  let doy := doe - (365 * yoe + yoe / 4 - yoe / 100) in
  let mp := (5 * doy + 2) / 153 in
  let d := doy - (153 * mp + 2) / 5 + 1 in
  let m := if mp <? 10 then mp + 3 else mp - 9 in
  let y := yoe + era * 400 + (if m <=? 2 then 1 else 0) in
  (y, m, d).

Definition day_name (w : Z) : string :=
  nth (Z.to_nat w) ["Sun"; "Mon"; "Tue"; "Wed"; "Thu"; "Fri"; "Sat"] "".

Definition month_name (m : Z) : string :=
  nth (Z.to_nat (m - 1))
      ["Jan"; "Feb"; "Mar"; "Apr"; "May"; "Jun";
       "Jul"; "Aug"; "Sep"; "Oct"; "Nov"; "Dec"] "".

(** A non-negative number in at least [w] digits, zero-padded. *)
Definition pad (w : nat) (n : Z) : string :=
  let s := str_of_int n in
  fold_right (fun _ acc => "0" +:+ acc) s (replicate (w - String.length s) tt).

Definition strftime (epoch : Z) : string :=
  let days := epoch / 86400 in
  let secs := epoch mod 86400 in
  let '(y, m, d) := civil days in
  day_name ((days + 4) mod 7) +:+ " " +:+ month_name m +:+ " " +:+ pad 2 d
    +:+ " " +:+ pad 4 y +:+ " " +:+ pad 2 (secs / 3600) +:+ ":"
    +:+ pad 2 (secs mod 3600 / 60) +:+ ":" +:+ pad 2 (secs mod 60).

(** The instants of the years 1 to 9999; outside them the conversion
    raises. *)
Definition in_range (epoch : Z) : bool :=
  (-62135596800 <=? epoch) && (epoch <=? 253402300799).

Definition fromtimestamp_strftime (epoch : Z) : option string :=
  if in_range epoch then Some (strftime epoch) else None.

End Calendar.

(** The dict handed to [Replay.create_replay_object]. *)
Record log_dict := mkLogDict {
  p1 : string;
  p2 : string;
  log : list string;
  inputLog : string;
  roomid : string;
  format : string;
  timestamp : string
}.

(** The locals [p1], [p2], [fmt] and [ts] of [build_replay_object]. *)
Record scan := mkScan {
  scan_p1 : string;
  scan_p2 : string;
  scan_fmt : string;
  scan_ts : option string
}.

(** [parts[i]] guarded by [len(parts) > i and parts[i]]. *)
Definition field (i : nat) (ln : string) : option string :=
  match split PIPE ln !! i with
  | Some x => if truthy x then Some x else None
  | None => None
  end.

(** The body of the [try]: any exception leaves [ts] at [None]. *)
Definition parse_ts (ln : string) : option string :=
  raw ← split PIPE ln !! 2%nat;
  epoch ← PyInt.int raw;
  Calendar.fromtimestamp_strftime epoch.

Definition scan_step (st : scan) (ln : string) : scan :=
  if startswith ln "|player|p1|" then
    match field 3 ln with
    | Some x => mkScan x (scan_p2 st) (scan_fmt st) (scan_ts st)
    | None => st
    end
  else if startswith ln "|player|p2|" then
    match field 3 ln with
    | Some x => mkScan (scan_p1 st) x (scan_fmt st) (scan_ts st)
    | None => st
    end
  else if startswith ln "|tier|" then
    match field 2 ln with
    | Some x => mkScan (scan_p1 st) (scan_p2 st) x (scan_ts st)
    | None => st
    end
  else if bool_decide (scan_ts st = None) && startswith ln "|t:|" then
    mkScan (scan_p1 st) (scan_p2 st) (scan_fmt st) (parse_ts ln)
  else st.

(** [now] is the clock read by [datetime.now(timezone.utc)], in whole
    seconds since the epoch.  The result is the dict passed on to
    [Replay.create_replay_object], whose own work (and its use of
    [show_full_damage]) is outside this file. *)
Definition build_replay_object (now : Z) (protocol_lines : list string)
    (roomid : string) (show_full_damage : bool) : log_dict :=
  let st := fold_left scan_step protocol_lines (mkScan "p1" "p2" "Custom Game" None) in
  let ts := match scan_ts st with
            | Some ts => ts
            | None => Calendar.strftime now
            end in
  mkLogDict (scan_p1 st) (scan_p2 st) (protocol_lines ++ [EmptyString]) EmptyString
            roomid (scan_fmt st) ts.

(** ** Room identifiers *)

Definition is_lower_alnum (c : ascii) : bool :=
  let n := nat_of_ascii c in
  ((97 <=? n)%nat && (n <=? 122)%nat) || ((48 <=? n)%nat && (n <=? 57)%nat).

(** [re.sub(r"[^a-z0-9]+", "", s)]: every run of other characters goes. *)
Fixpoint strip_non_alnum (s : string) : string :=
  match s with
  | EmptyString => EmptyString
  | String c r =>
      if is_lower_alnum c then String c (strip_non_alnum r) else strip_non_alnum r
  end.

(** [s[:n]] for [0 <= n]. *)
Fixpoint str_take (n : nat) (s : string) : string :=
  match n, s with
  | S k, String c r => String c (str_take k r)
  | _, _ => EmptyString
  end.

Definition sanitize_roomid (s fallback : string) : string :=
  let s := lower (strip s) in
  let s := strip_non_alnum s in
  str_take 64 (if truthy s then s else fallback).

(** ** Listing the matchups *)

(** [counts[k] += 1] on a [Counter]: a dict, so the keys stay in the order
    of their first insertion. *)
Fixpoint counter_incr (k : string) (counts : list (string * nat)) : list (string * nat) :=
  match counts with
  | [] => [(k, 1%nat)]
  | (k', c) :: rest =>
      if String.eqb k' k then (k', S c) :: rest
      else (k', c) :: counter_incr k rest
  end.

(** The first loop of [list_matchups] over the locals [counts] and [total]. *)
Definition tally (blocks : list BattleBlock) : list (string * nat) * nat :=
  fold_left (fun st block => (counter_incr (header block) st.1, S st.2))
            blocks ([], 0%nat).

(** [sorted(items, key=itemgetter(1), reverse=True)]: by count, largest
    first, items of equal count keeping their order. *)
Fixpoint insert_desc (x : string * nat) (l : list (string * nat)) : list (string * nat) :=
  match l with
  | [] => [x]
  | y :: r => if (y.2 <=? x.2)%nat then x :: y :: r else y :: insert_desc x r
  end.

Definition sort_desc (l : list (string * nat)) : list (string * nat) :=
  fold_right insert_desc [] l.

(** [counts.most_common(n)], that is [heapq.nlargest(n, items, key=count)]:
    the first [n] of the sorted items, none for [n <= 0]. *)
Definition most_common (n : Z) (counts : list (string * nat)) : list (string * nat) :=
  if n <=? 0 then [] else take (Z.to_nat n) (sort_desc counts).

(** [f"{c:5d}"]: right-aligned in five columns. *)
Definition fmt_5d (c : nat) : string :=
  let s := str_of_int (Z.of_nat c) in
  fold_right (fun _ acc => " " +:+ acc) s (replicate (5 - String.length s) tt).

(** The lines [list_matchups] prints. *)
Definition list_matchups (f : file) (top_n : Z) : list string :=
  let '(counts, total) := tally (iter_battles f) in
  if (total =? 0)%nat then ["No battles found."]
  else
    ("Found " +:+ str_of_int (Z.of_nat total) +:+ " battle(s) across "
       +:+ str_of_int (Z.of_nat (length counts)) +:+ " unique matchup header(s):")
    :: map (fun '(hdr, c) => fmt_5d c +:+ "  " +:+ hdr) (most_common top_n counts).

(** ** The command line driver *)

(** The parsed arguments [main] goes on to use. *)
Record Args := mkArgs {
  arg_battle_index : option Z;
  arg_matchup : option string;
  arg_occurrence : Z;
  arg_list_matchups : bool;
  arg_p1_name : option string;
  arg_p2_name : option string;
  arg_p1_avatar : option string;
  arg_p2_avatar : option string;
  arg_both_name : option string;
  arg_both_avatar : option string;
  arg_show_full_damage : bool
}.

(** [a or b] on two optional strings. *)
Definition or_opt (a b : option string) : option string :=
  match a with
  | Some s => if truthy s then a else b
  | None => b
  end.

(** How a run of [main] ends: [SystemExit] on a missing input, an exception
    of the selection, the listing printed, or the replay object built from
    the selected block. *)
Inductive outcome :=
| Exit (msg : string)
| Raised (e : exn)
| Listed (stdout : list string)
| Built (block : BattleBlock) (replay : log_dict).

(** [main] from the existence check to [replay_obj]; [input] is the content
    of the input file if it exists, [input_path] its printed path and [now]
    the clock.  Rendering and writing the HTML are the replay library's and
    the file system's and are left out. *)
Definition main (args : Args) (input_path : string) (input : option file) (now : Z)
  : outcome :=
  match input with
  | None => Exit ("Input not found: " +:+ input_path)
  | Some f =>
      if arg_list_matchups args then Listed (list_matchups f 80)
      else
        let selected :=
          match arg_matchup args with
          | Some matchup =>
              (get_battle_by_matchup f matchup (arg_occurrence args),
               sanitize_roomid (matchup +:+ "-" +:+ str_of_int (arg_occurrence args)) "sim")
          | None =>
              let idx := default 0 (arg_battle_index args) in
              (get_battle_by_index f idx,
               sanitize_roomid ("sim-battle-" +:+ str_of_int idx) "sim")
          end in
        match selected.1 with
        | inl e => Raised e
        | inr block =>
            let p1_name := or_opt (arg_p1_name args) (arg_both_name args) in
            let p2_name := or_opt (arg_p2_name args) (arg_both_name args) in
            let p1_avatar := or_opt (arg_p1_avatar args) (arg_both_avatar args) in
            let p2_avatar := or_opt (arg_p2_avatar args) (arg_both_avatar args) in
            let protocol :=
              override_players p1_name p2_name p1_avatar p2_avatar (protocol_lines block) in
            Built block (build_replay_object now protocol selected.2
                                             (arg_show_full_damage args))
        end
  end.

(** ** The completeness check of the rerun wrapper *)

(** [s.count(sub)]: occurrences found left to right, none overlapping
    another; [skip] characters are still covered by the last one found. *)
Fixpoint count_from (sub : string) (skip : nat) (s : string) : nat :=
  match s with
  | EmptyString => 0
  | String c r =>
      match skip with
      | S k => count_from sub k r
      | O =>
          if String.prefix sub s
          then S (count_from sub (String.length sub - 1) r)
          else count_from sub 0 r
      end
  end.

Definition str_count (s sub : string) : nat :=
  if truthy sub then count_from sub 0 s else S (String.length s).

(** [is_output_valid] of [auto_rerun_wrapper.py]; [content] is what the
    file at [path] holds, decoded, if the path exists. *)
Definition is_output_valid (content : option file) (min_battles : Z) : bool :=
  match content with
  | None => false
  | Some f => min_battles <=? Z.of_nat (str_count (read_text f) ("]]]]]" +:+ String LF ""))
  end.

(** ** Reference notions used by the statements *)

(** A text file holding the given lines, each ended by a newline. *)
Definition text_of (lines : list string) : file :=
  fold_right (fun l acc => l +:+ String LF acc) EmptyString lines.

(** The marker a line stands for, as the Line Classifier sees it. *)
Inductive marker := MStart | MEnd.

Definition classify (line : string) : option marker :=
  if String.eqb (strip line) START then Some MStart
  else if String.eqb (strip line) END then Some MEnd
  else None.

Definition markers (lines : list string) : list marker := omap classify lines.

(** Marker lines come in pairs: a start line, then an end line. *)
Fixpoint alternating (ms : list marker) : bool :=
  match ms with
  | [] => true
  | MStart :: MEnd :: rest => alternating rest
  | _ => false
  end.

Definition is_start (m : marker) : bool := match m with MStart => true | MEnd => false end.
Definition is_end (m : marker) : bool := match m with MEnd => true | MStart => false end.

Definition well_formed (f : file) : Prop := alternating (markers (read_lines f)) = true.

(** The number of start/end pairs of a file: its start marker lines. *)
Definition marker_pairs (f : file) : nat :=
  length (List.filter is_start (markers (read_lines f))).

(** Substrings, as [contains] decides them. *)
Definition infix_of (n h : string) : Prop := exists a b, h = a +:+ n +:+ b.

(** The header Fallback mode is to report: the trimmed first line that is
    neither blank nor a protocol line. *)
Definition fallback_header (lines : list string) : string :=
  match List.find (fun l => truthy (strip l) && negb (startswith l "|")) lines with
  | Some l => strip l
  | None => UNKNOWN_MATCHUP
  end.

(** The test [get_battle_by_matchup] applies to a block, for a key already
    trimmed and lowered. *)
Definition header_matches (target : string) (b : BattleBlock) : bool :=
  String.eqb (lower (strip (header b))) target.

(** The [NotFound] and [OutOfRange] errors, with their messages. *)
Definition not_found (matchup : string) (occurrence : Z) : exn :=
  ValueError ("No matchup " +:+ QUOTE +:+ matchup +:+ QUOTE
              +:+ " found at occurrence " +:+ str_of_int occurrence +:+ ".").

Definition out_of_range (index : Z) : exn :=
  IndexError ("Battle index " +:+ str_of_int index +:+ " out of range.").

(** A string in which the character does not occur. *)
Fixpoint free_of (c : ascii) (s : string) : bool :=
  match s with
  | EmptyString => true
  | String d r => negb (Ascii.eqb d c) && free_of c r
  end.

(** [while len(parts) < 6: parts.append("")] *)
Definition pad6 (parts : list string) : list string :=
  parts ++ replicate (6 - length parts)%nat EmptyString.

(** [parts[i] = v] when an override [v] is supplied. *)
Definition set_field (i : nat) (v : option string) (parts : list string) : list string :=
  match v with Some x => <[i := x]> parts | None => parts end.

Definition is_p1 (ln : string) : bool := startswith ln "|player|p1|".
Definition is_p2 (ln : string) : bool := startswith ln "|player|p2|".
Definition is_start_line (ln : string) : bool := startswith ln "|start|".

(** What the first loop of [override_players] makes of one line. *)
Definition rewrite_line (p1_name p2_name p1_avatar p2_avatar : option string)
    (ln : string) : string :=
  if is_p1 ln then fix_player_line ln p1_name p1_avatar
  else if is_p2 ln then fix_player_line ln p2_name p2_avatar
  else ln.

(** What a rewrite under the single override [p1_name = n] may do to the
    line [ln], giving [ln']: a side-1 line has its fields padded to six and
    field 3 set to [n]; a side-2 line keeps its fields, padded to six, and
    is untouched when it had six already; any other line is untouched. *)
Definition p1_name_only (n : string) (ln ln' : string) : Prop :=
  if is_p1 ln then
    ln' = join "|" (<[3%nat := n]> (pad6 (split PIPE ln)))
    /\ (free_of PIPE n = true ->
        split PIPE ln' = <[3%nat := n]> (pad6 (split PIPE ln)))
  else if is_p2 ln then
    split PIPE ln' = pad6 (split PIPE ln)
    /\ ((6 <= length (split PIPE ln))%nat -> ln' = ln)
  else ln' = ln.

(** The place of an insertion: the index of the first [|start|] line, or
    the very beginning when there is no such line. *)
Definition insertion_point (lines : list string) (k : nat) : Prop :=
  (exists ln, lines !! k = Some ln /\ is_start_line ln = true
              /\ Forall (fun l => is_start_line l = false) (take k lines))
  \/ (k = 0%nat /\ Forall (fun l => is_start_line l = false) lines).

Definition free_opt (v : option string) : Prop :=
  match v with Some x => free_of PIPE x = true | None => True end.

(** The value a line offers to each field of the record, if any. *)
Definition sel_p1 (ln : string) : option string :=
  if is_p1 ln then field 3 ln else None.
Definition sel_p2 (ln : string) : option string :=
  if is_p2 ln then field 3 ln else None.
Definition sel_fmt (ln : string) : option string :=
  if startswith ln "|tier|" then field 2 ln else None.
Definition sel_ts (ln : string) : option string :=
  if startswith ln "|t:|" then parse_ts ln else None.

(** First-match-wins and last-match-wins over the offers of the lines. *)
Definition first_match (sel : string -> option string) (lines : list string)
    (dflt : string) : string :=
  default dflt (head (omap sel lines)).

Definition last_match (sel : string -> option string) (lines : list string)
    (dflt : string) : string :=
  default dflt (last (omap sel lines)).

(** The timestamp read off the first [|t:|] line alone, the clock standing
    in when that line does not parse or is missing. *)
Definition first_t_line_timestamp (now : Z) (lines : list string) : string :=
  match List.find (fun ln => startswith ln "|t:|") lines with
  | Some ln => default (Calendar.strftime now) (parse_ts ln)
  | None => Calendar.strftime now
  end.

(** A protocol line. *)
Definition is_protocol (l : string) : bool := startswith l "|".

(** A line that can be written to a text file as one line. *)
Definition one_line (l : string) : Prop := free_of LF l = true /\ free_of CR l = true.

(** The lines of a block written out in marked form. *)
Definition render (b : BattleBlock) : list string :=
  START :: header b :: protocol_lines b ++ [END].

(** A block that marked form can carry: a trimmed, non-empty header other
    than the end sigil, over protocol lines. *)
Definition renderable (b : BattleBlock) : Prop :=
  header b <> EmptyString /\ strip (header b) = header b /\ header b <> END
  /\ one_line (header b)
  /\ Forall (fun l => is_protocol l = true /\ one_line l) (protocol_lines b).

(** What holds of the locals between two iterations, for the lines [ls]
    read so far. *)
Definition locals_ok (ls : list string) (st : locals) : Prop :=
  (in_block st = false -> st = outside)
  /\ Forall (fun l => is_protocol l = true /\ In l ls) (cur_lines st)
  /\ match cur_header st with
     | Some h => h <> EmptyString /\ exists l, In l ls /\ h = strip l
     | None => True
     end.

Definition block_ok (ls : list string) (b : BattleBlock) : Prop :=
  Forall (fun l => is_protocol l = true /\ In l ls) (protocol_lines b)
  /\ header b <> EmptyString /\ strip (header b) = header b
  /\ (header b = UNKNOWN_MATCHUP \/ exists l, In l ls /\ header b = strip l).

(** [counts[h]] on a [Counter]: a missing key counts 0. *)
Definition counter_get (h : string) (counts : list (string * nat)) : nat :=
  default 0%nat (snd <$> List.find (fun kc => String.eqb kc.1 h) counts).

(** A string all of whose characters pass the test. *)
Fixpoint all_chars (p : ascii -> bool) (s : string) : bool :=
  match s with
  | EmptyString => true
  | String c r => p c && all_chars p r
  end.

(** A player line of either side. *)
Definition is_player (ln : string) : bool := is_p1 ln || is_p2 ln.

(** An override that is supplied. *)
Definition given (v : option string) : bool :=
  match v with Some _ => true | None => false end.

(** An override value that fits in one field: where supplied, it is not
    empty and holds no pipe. *)
Definition clean (v : option string) : Prop :=
  match v with
  | Some x => x <> EmptyString /\ free_of PIPE x = true
  | None => True
  end.

(** A line the scan of [build_replay_object] looks at. *)
Definition is_scanned (ln : string) : bool :=
  is_p1 ln || is_p2 ln || startswith ln "|tier|" || startswith ln "|t:|".

(** A string that ends with [p]. *)
Fixpoint has_suffix (p s : string) : bool :=
  String.eqb s p ||
  match s with
  | EmptyString => false
  | String _ r => has_suffix p r
  end.

(** A text file holding the given lines, each ended by CR LF. *)
Definition text_of_crlf (lines : list string) : file :=
  fold_right (fun l acc => l +:+ String CR (String LF acc)) EmptyString lines.

(** * Facts about the text primitives *)

Section text_facts.

Lemma app_String c (s t : string) : String c s +:+ t = String c (s +:+ t).
Proof. reflexivity. Qed.

Lemma app_empty_l (s : string) : EmptyString +:+ s = s.
Proof. reflexivity. Qed.

Lemma app_assoc_s (a b c : string) : (a +:+ b) +:+ c = a +:+ b +:+ c.
Proof. induction a as [|x a IH]; [done|]. by rewrite !app_String, IH. Qed.

Lemma prefix_app (p s : string) : String.prefix p (p +:+ s) = true.
Proof.
  induction p as [|c p IH]; [by destruct s|].
  rewrite app_String. simpl. by destruct (ascii_dec c c).
Qed.

Lemma prefix_inv (p s : string) :
  String.prefix p s = true -> exists r, s = p +:+ r.
Proof.
  revert s. induction p as [|c p IH]; intros s H.
  - by exists s.
  - destruct s as [|d s]; [done|]. simpl in H.
    destruct (ascii_dec c d) as [->|]; [|done].
    destruct (IH _ H) as [r ->]. by exists r.
Qed.

Lemma contains_prefix n h : String.prefix n h = true -> contains n h = true.
Proof. intros H. destruct h; simpl in *; by rewrite H. Qed.

Lemma contains_infix n h : infix_of n h -> contains n h = true.
Proof.
  intros (a & b & ->). induction a as [|c a IH].
  - change (EmptyString +:+ n +:+ b) with (n +:+ b).
    apply contains_prefix, prefix_app.
  - rewrite app_String. simpl. rewrite IH. apply orb_true_r.
Qed.

Lemma infix_contains n h : contains n h = true -> infix_of n h.
Proof.
  induction h as [|c h IH]; intros H.
  - change (String.prefix n EmptyString || false = true) in H.
    rewrite orb_false_r in H. destruct (prefix_inv _ _ H) as [r Hr].
    by exists EmptyString, r.
  - change (String.prefix n (String c h) || contains n h = true) in H.
    apply orb_true_iff in H as [H|H].
    + destruct (prefix_inv _ _ H) as [r Hr]. by exists EmptyString, r.
    + destruct (IH H) as (a & b & ->). by exists (String c a), b.
Qed.

Lemma infix_trans a b c : infix_of a b -> infix_of b c -> infix_of a c.
Proof.
  intros (x & y & ->) (u & v & ->). exists (u +:+ x), (y +:+ v).
  by rewrite !app_assoc_s.
Qed.

Lemma ltrim_infix sp s : exists a, s = a +:+ ltrim sp s.
Proof.
  induction s as [|c s [a IH]]; [by exists EmptyString|]. simpl.
  destruct (sp c); [|by exists EmptyString].
  exists (String c a). by rewrite app_String, <- IH.
Qed.

Lemma rtrim_infix sp s : exists b, s = rtrim sp s +:+ b.
Proof.
  induction s as [|c s [b IH]]; [by exists EmptyString|]. simpl.
  destruct (rtrim sp s) as [|d r] eqn:E.
  - destruct (sp c).
    + exists (String c s). done.
    + exists b. by rewrite app_String, <- IH.
  - exists b. by rewrite app_String, <- IH.
Qed.

Lemma strip_infix s : infix_of (strip s) s.
Proof.
  destruct (ltrim_infix isspace s) as [a Ha].
  destruct (rtrim_infix isspace (ltrim isspace s)) as [b Hb].
  exists a, b. unfold strip, trim. by rewrite <- Hb.
Qed.

Lemma splitlines_head t l ls : splitlines t = l :: ls -> exists b, t = l +:+ b.
Proof.
  revert l ls. induction t as [|c t IH]; intros l ls; simpl; [done|].
  destruct (Ascii.eqb c LF).
  - intros [= <- _]. by exists (String c t).
  - destruct (splitlines t) as [|l' ls'] eqn:E.
    + intros [= <- _]. destruct t as [|d t]; [by exists EmptyString|].
      simpl in E. destruct (Ascii.eqb d LF); [done|].
      by destruct (splitlines t).
    + intros [= <- _]. destruct (IH _ _ eq_refl) as [b ->]. by exists b.
Qed.

Lemma splitlines_infix t line : In line (splitlines t) -> infix_of line t.
Proof.
  revert line. induction t as [|c t IH]; intros line; simpl; [done|].
  destruct (Ascii.eqb c LF).
  - intros [<-|H].
    + by exists EmptyString, (String c t).
    + destruct (IH _ H) as (a & b & ->). by exists (String c a), b.
  - destruct (splitlines t) as [|l ls] eqn:E.
    + intros [<-|[]]. destruct t as [|d t].
      * by exists EmptyString, EmptyString.
      * simpl in E. destruct (Ascii.eqb d LF); [done|].
        by destruct (splitlines t).
    + intros [<-|H].
      * destruct (splitlines_head _ _ _ E) as [b ->].
        by exists EmptyString, b.
      * destruct (IH line (or_intror H)) as (a & b & ->).
        by exists (String c a), b.
Qed.

Lemma splitlines_app_line l t :
  free_of LF l = true -> splitlines (l +:+ String LF t) = l :: splitlines t.
Proof.
  induction l as [|c l IH]; simpl.
  - intros _. change (EmptyString +:+ String LF t) with (String LF t). done.
  - destruct (Ascii.eqb c LF) eqn:E; simpl; [done|]. intros H.
    change (String c l +:+ String LF t) with (String c (l +:+ String LF t)).
    simpl. rewrite IH by done. by rewrite ?E.
Qed.

Lemma universal_newlines_app_line l t :
  free_of CR l = true ->
  universal_newlines (l +:+ String LF t) = l +:+ String LF (universal_newlines t).
Proof.
  induction l as [|c l IH]; simpl.
  - intros _. change (EmptyString +:+ String LF t) with (String LF t). done.
  - destruct (Ascii.eqb c CR) eqn:E; simpl; [done|]. intros H.
    change (String c l +:+ String LF t) with (String c (l +:+ String LF t)).
    simpl. rewrite IH by done. by rewrite ?E.
Qed.

(** Reading a file written line by line gives the lines back. *)
Lemma read_lines_text_of lines :
  Forall (fun l => free_of LF l = true /\ free_of CR l = true) lines ->
  read_lines (text_of lines) = lines.
Proof.
  unfold read_lines. induction 1 as [|l lines [Hl Hc] _ IH]; [done|].
  simpl. rewrite universal_newlines_app_line by done.
  rewrite splitlines_app_line by done. by rewrite IH.
Qed.

(** A line whose trimmed text is [m] makes [m] occur in the text read. *)
Lemma line_marker_contains f line m :
  In line (read_lines f) -> strip line = m -> contains m (read_text f) = true.
Proof.
  intros Hin <-. apply contains_infix.
  eapply infix_trans; [apply strip_infix|by apply splitlines_infix].
Qed.

Lemma split_nonempty c s : split c s <> [].
Proof.
  destruct s as [|d s]; simpl; [done|].
  destruct (Ascii.eqb d c); [done|]. by destruct (split c s).
Qed.

Lemma split_free c s : Forall (fun p => free_of c p = true) (split c s).
Proof.
  induction s as [|d s IH]; simpl; [by repeat constructor|].
  destruct (Ascii.eqb d c) eqn:E; [by constructor|].
  destruct (split c s) as [|p ps]; simpl.
  - repeat constructor. simpl. by rewrite E.
  - inversion_clear IH. constructor; [|done]. simpl. by rewrite E.
Qed.

Lemma join_cons sep p q ps : join sep (p :: q :: ps) = p +:+ sep +:+ join sep (q :: ps).
Proof. reflexivity. Qed.

(** Joining what [split] cut gives the line back. *)
Lemma join_split s : join "|" (split PIPE s) = s.
Proof.
  induction s as [|d s IH]; simpl; [done|].
  destruct (Ascii.eqb_spec d PIPE) as [->|Hne].
  - pose proof (split_nonempty PIPE s).
    destruct (split PIPE s) as [|q ps]; [done|]. by rewrite join_cons, IH.
  - pose proof (split_nonempty PIPE s).
    destruct (split PIPE s) as [|q ps]; [done|].
    destruct ps as [|q' ps].
    + simpl in *. by rewrite IH.
    + rewrite join_cons in *. by rewrite app_String, IH.
Qed.

Lemma split_free_whole c s : free_of c s = true -> split c s = [s].
Proof.
  induction s as [|d s IH]; simpl; [done|].
  destruct (Ascii.eqb d c); simpl; [done|]. intros H. by rewrite IH.
Qed.

Lemma split_app_sep c p r :
  free_of c p = true -> split c (p +:+ String c r) = p :: split c r.
Proof.
  induction p as [|d p IH]; simpl.
  - intros _. change (EmptyString +:+ String c r) with (String c r).
    simpl. by rewrite Ascii.eqb_refl.
  - destruct (Ascii.eqb d c) eqn:E; simpl; [done|]. intros H.
    change (String d p +:+ String c r) with (String d (p +:+ String c r)).
    by rewrite IH.
Qed.

(** Splitting what [join] glued gives the parts back, when no part holds
    a pipe. *)
Lemma split_join parts :
  parts <> [] -> Forall (fun p => free_of PIPE p = true) parts ->
  split PIPE (join "|" parts) = parts.
Proof.
  induction parts as [|p [|q ps] IH]; intros Hne Hf; [done| |].
  - simpl. apply split_free_whole. by inversion Hf.
  - rewrite join_cons. inversion_clear Hf.
    change ("|" +:+ join "|" (q :: ps)) with (String PIPE (join "|" (q :: ps))).
    rewrite split_app_sep by done. f_equal. by apply IH.
Qed.

End text_facts.


(** * The Block Segmenter *)

Section segmenter.

Lemma START_neq_END : START <> END.
Proof. discriminate. Qed.

Lemma marked_run_app st l1 l2 :
  marked_run st (l1 ++ l2) =
  ((marked_run st l1).1 ++ (marked_run (marked_run st l1).2 l2).1,
   (marked_run (marked_run st l1).2 l2).2).
Proof.
  revert st. induction l1 as [|x l1 IH]; intros st; simpl.
  - by destruct (marked_run st l2).
  - destruct (marked_step st x) as [st' y]. rewrite IH.
    destruct (marked_run st' l1) as [b1 s1]; simpl.
    destruct (marked_run s1 l2) as [b2 s2]; simpl. by destruct y.
Qed.

(** Only an end-marker line makes the loop yield. *)
Lemma marked_step_yield st line b :
  (marked_step st line).2 = Some b -> strip line = END.
Proof.
  unfold marked_step. destruct (in_block st); simpl.
  - destruct (String.eqb_spec (strip line) END); [done|].
    destruct (waiting_for_header st); [by destruct (truthy _)|].
    by destruct (startswith _ _).
  - by destruct (String.eqb _ _).
Qed.

Lemma marked_run_no_end st lines :
  Forall (fun l => strip l <> END) lines -> (marked_run st lines).1 = [].
Proof.
  intros H. revert st. induction H as [|x l Hx _ IH]; intros st; [done|].
  simpl. destruct (marked_step st x) as [st' y] eqn:E.
  specialize (IH st'). destruct (marked_run st' l) as [bs fin].
  simpl in *. destruct y as [b|]; [|done].
  destruct Hx. apply (marked_step_yield st x b). by rewrite E.
Qed.

(** The step seen through [classify]. *)
Lemma marked_step_unmarked st line :
  classify line = None ->
  in_block (marked_step st line).1 = in_block st /\ (marked_step st line).2 = None.
Proof.
  unfold classify, marked_step.
  destruct (String.eqb (strip line) START); [done|].
  destruct (String.eqb (strip line) END); [done|]. intros _.
  destruct (in_block st) eqn:E; simpl; [|done].
  destruct (waiting_for_header st); [by destruct (truthy _)|].
  by destruct (startswith _ _).
Qed.

Lemma classify_start line : classify line = Some MStart -> strip line = START.
Proof.
  unfold classify. destruct (String.eqb_spec (strip line) START); [done|].
  by destruct (String.eqb _ _).
Qed.

Lemma classify_end line : classify line = Some MEnd -> strip line = END.
Proof.
  unfold classify. destruct (String.eqb (strip line) START); [done|].
  by destruct (String.eqb_spec (strip line) END).
Qed.

Lemma count_ends_alternating ms :
  alternating ms = true ->
  length (List.filter is_end ms) = length (List.filter is_start ms).
Proof.
  induction ms as [ms IH] using (induction_ltof1 _ (@length marker)).
  unfold ltof in IH. destruct ms as [|[] [|[] ms]]; try done.
  simpl. intros H. f_equal. apply IH; [simpl; lia|done].
Qed.

(** From inside a block the pending end line is owed; from outside the
    marker lines ahead are whole pairs.  Either way one block comes out
    per end line. *)
Lemma marked_run_count lines : forall st,
  alternating (if in_block st then MStart :: markers lines else markers lines) = true ->
  length (marked_run st lines).1 = length (List.filter is_end (markers lines)).
Proof.
  induction lines as [|x lines IH]; intros st H; [done|].
  unfold markers in *. simpl in *. destruct (classify x) as [m|] eqn:Ec; simpl in *.
  - destruct m.
    + (* a start line: only legal outside a block *)
      destruct (in_block st) eqn:Ei; [done|].
      pose proof (classify_start _ Ec) as Hs.
      unfold marked_step. rewrite Ei, Hs. simpl.
      specialize (IH awaiting H).
      by destruct (marked_run awaiting lines).
    + (* an end line: only legal inside a block *)
      destruct (in_block st) eqn:Ei; [|done].
      pose proof (classify_end _ Ec) as He.
      unfold marked_step. rewrite Ei, He. simpl.
      specialize (IH outside H).
      destruct (marked_run outside lines). simpl in *. by rewrite IH.
  - destruct (marked_step_unmarked st x Ec) as [Hi Hy].
    destruct (marked_step st x) as [st' y]. simpl in *. subst y.
    specialize (IH st'). rewrite Hi in IH. specialize (IH H).
    by destruct (marked_run st' lines).
Qed.

(** A protocol line is never blank. *)
Lemma protocol_line_not_blank line :
  startswith line "|" = true -> truthy (strip line) = true.
Proof.
  intros H. destruct (prefix_inv _ _ H) as [r ->].
  change ("|" +:+ r) with (String "|" r).
  unfold strip, trim. simpl. by destruct (rtrim isspace r).
Qed.

Lemma fallback_fold lines : forall h pl,
  fold_left fallback_step lines (h, pl) =
  (match h with
   | Some _ => h
   | None => strip <$> List.find (fun l => truthy (strip l) && negb (startswith l "|")) lines
   end,
   pl ++ List.filter (fun l => startswith l "|") lines).
Proof.
  induction lines as [|x lines IH]; intros h pl; simpl.
  - rewrite app_nil_r. by destruct h.
  - unfold fallback_step at 2. simpl.
    destruct (truthy (strip x)) eqn:Et; simpl.
    + destruct (startswith x "|") eqn:Ep; simpl.
      * rewrite andb_false_r. rewrite IH. by rewrite <- app_assoc.
      * rewrite andb_true_r. destruct h; simpl; by rewrite IH.
    + assert (startswith x "|" = false) as ->.
      { destruct (startswith x "|") eqn:Ep; [|done].
        by rewrite (protocol_line_not_blank _ Ep) in Et. }
      by rewrite IH.
Qed.

Lemma marker_line lines m :
  In m (markers lines) ->
  exists line, In line lines /\ classify line = Some m.
Proof.
  unfold markers. induction lines as [|x lines IH]; simpl; [done|].
  destruct (classify x) as [m'|] eqn:E; simpl.
  - intros [->|H]; [by exists x; auto|].
    destruct (IH H) as (l & ? & ?). exists l; auto.
  - intros H. destruct (IH H) as (l & ? & ?). exists l; auto.
Qed.

Lemma filter_nonempty_in {A} (p : A -> bool) (l : list A) :
  (0 < length (List.filter p l))%nat -> exists x, In x l /\ p x = true.
Proof.
  destruct (List.filter p l) as [|x r] eqn:E; simpl; [lia|]. intros _.
  exists x. apply List.filter_In. rewrite E. by left.
Qed.

(** C9, as amended.  In the awaiting-header state a line that is not the
    end marker and is non-empty after trimming becomes the header, and the
    segmenter goes on to collecting with the accumulated lines untouched;
    a blank line is skipped and leaves the state as it is. *)
Theorem awaiting_header_step st line :
  in_block st = true -> waiting_for_header st = true ->
  (strip line <> END -> truthy (strip line) = true ->
     marked_step st line =
     (mkLocals true false (Some (strip line)) (cur_lines st), None))
  /\ (truthy (strip line) = false -> marked_step st line = (st, None)).
Proof.
  intros Hi Hw. unfold marked_step. rewrite Hi, Hw. simpl. split.
  - intros Hne Ht. destruct (String.eqb_spec (strip line) END); [done|].
    by rewrite Ht.
  - intros Ht. destruct (String.eqb_spec (strip line) END) as [He|_].
    + by rewrite He in Ht.
    + by rewrite Ht.
Qed.

Lemma awaiting_header_step_witness :
  marked_step awaiting "  A vs B " = (mkLocals true false (Some "A vs B") [], None)
  /\ marked_step awaiting "   " = (awaiting, None).
Proof.
  split.
  - apply (proj1 (awaiting_header_step awaiting "  A vs B " eq_refl eq_refl));
      [discriminate | reflexivity].
  - apply (proj2 (awaiting_header_step awaiting "   " eq_refl eq_refl)).
    reflexivity.
Defined.

(** C9, as first stated, fails on an end-marker line: it is non-empty
    after trimming, yet in the awaiting-header state it closes the block
    under the sentinel header instead of becoming the header. *)
Lemma awaiting_header_end_marker_counterexample :
  in_block awaiting = true /\ waiting_for_header awaiting = true
  /\ truthy (strip "]]]]]") = true
  /\ marked_step awaiting "]]]]]" = (outside, Some (mkBlock UNKNOWN_MATCHUP []))
  /\ marked_step awaiting "]]]]]"
     <> (mkLocals true false (Some (strip "]]]]]")) (cur_lines awaiting), None).
Proof. repeat split; discriminate. Qed.

(** C4.  In Marked mode a trailing region that opens with a start marker
    and holds no end marker adds nothing: the blocks emitted are those of
    the input without that region. *)
Theorem unterminated_tail_dropped (f f' : file) start tail :
  read_lines f' = read_lines f ++ start :: tail ->
  strip start = START ->
  Forall (fun l => strip l <> END) tail ->
  iter_battles_marked f' = iter_battles_marked f.
Proof.
  intros Hl Hs Ht. unfold iter_battles_marked.
  rewrite Hl, marked_run_app.
  rewrite (marked_run_no_end _ (start :: tail)); [simpl; by rewrite app_nil_r|].
  constructor; [|done]. rewrite Hs. apply START_neq_END.
Qed.

Lemma unterminated_tail_dropped_witness :
  iter_battles_marked
    (text_of ["[[[[["; "A vs B"; "|turn|1"; "]]]]]"; "[[[[["; "C vs D"; "|turn|1"])
  = iter_battles_marked (text_of ["[[[[["; "A vs B"; "|turn|1"; "]]]]]"])
  /\ iter_battles_marked (text_of ["[[[[["; "A vs B"; "|turn|1"; "]]]]]"])
     = [mkBlock "A vs B" ["|turn|1"]].
Proof.
  split; [|reflexivity].
  apply (unterminated_tail_dropped _ _ "[[[[[" ["C vs D"; "|turn|1"]).
  - reflexivity.
  - reflexivity.
  - repeat constructor; discriminate.
Defined.

(** The same over files written line by line. *)
Corollary trailing_region_adds_nothing pre start tail :
  Forall (fun l => free_of LF l = true /\ free_of CR l = true) (pre ++ start :: tail) ->
  strip start = START ->
  Forall (fun l => strip l <> END) tail ->
  iter_battles_marked (text_of (pre ++ start :: tail)) = iter_battles_marked (text_of pre).
Proof.
  intros Hf Hs Ht. unfold iter_battles_marked.
  rewrite !read_lines_text_of; [|by apply Forall_app in Hf as [? _]|done].
  rewrite marked_run_app.
  rewrite (marked_run_no_end _ (start :: tail)); [simpl; by rewrite app_nil_r|].
  constructor; [|done]. rewrite Hs. apply START_neq_END.
Qed.

(** C3.  On well-formed marked input (marker lines alternate start, end,
    start, end, ...) Marked mode emits as many blocks as there are
    start/end pairs; start lines and end lines are equally many, and as
    soon as there is one pair [iter_battles] itself runs in Marked mode
    and emits that many blocks. *)
Theorem marked_block_count (f : file) :
  well_formed f ->
  length (iter_battles_marked f) = marker_pairs f
  /\ length (List.filter is_end (markers (read_lines f))) = marker_pairs f
  /\ ((0 < marker_pairs f)%nat -> length (iter_battles f) = marker_pairs f).
Proof.
  intros Hwf. unfold well_formed in Hwf.
  pose proof (count_ends_alternating _ Hwf) as Hc.
  assert (length (iter_battles_marked f) = marker_pairs f) as Hm.
  { unfold iter_battles_marked, marker_pairs. rewrite <- Hc.
    by apply marked_run_count. }
  split; [done|]. split; [done|]. intros Hpos.
  unfold iter_battles.
  assert (contains START (read_text f) = true) as ->.
  { destruct (filter_nonempty_in _ _ Hpos) as ([] & Hin & ?); [|done].
    destruct (marker_line _ _ Hin) as (line & Hl & Hcl).
    eapply line_marker_contains; [done|]. by apply classify_start. }
  assert (contains END (read_text f) = true) as ->.
  { unfold marker_pairs in Hpos. rewrite <- Hc in Hpos.
    destruct (filter_nonempty_in _ _ Hpos) as ([] & Hin & ?); [done|].
    destruct (marker_line _ _ Hin) as (line & Hl & Hcl).
    eapply line_marker_contains; [done|]. by apply classify_end. }
  done.
Qed.

Lemma marked_block_count_witness :
  let f := text_of ["noise"; "[[[[["; "A vs B"; "|turn|1"; "]]]]]"; "";
                    " [[[[[ "; "]]]]]"; "[[[[["; ""; "C vs D"; "junk"; "]]]]]"] in
  marker_pairs f = 3%nat /\ length (iter_battles_marked f) = 3%nat
  /\ length (iter_battles f) = 3%nat.
Proof.
  intros f.
  destruct (marked_block_count f eq_refl) as (H1 & _ & H3).
  split; [reflexivity|]. split; [exact H1|]. apply H3. vm_compute. lia.
Defined.

(** C5.  When the start sigil or the end sigil does not occur in the
    text, segmentation yields exactly one block: its protocol lines are
    the lines that begin with the pipe, in input order, and its header is
    the trimmed first line that is non-empty after trimming and does not
    begin with the pipe, or the sentinel when there is none; where the
    protocol lines stand relative to the header line plays no part. *)
Theorem fallback_single_block (f : file) :
  contains START (read_text f) = false \/ contains END (read_text f) = false ->
  iter_battles f =
  [mkBlock (fallback_header (read_lines f))
           (List.filter (fun l => startswith l "|") (read_lines f))].
Proof.
  intros H. unfold iter_battles.
  assert (contains START (read_text f) && contains END (read_text f) = false) as ->.
  { destruct H as [-> | ->]; [done|apply andb_false_r]. }
  unfold parse_single_battle_fallback. rewrite fallback_fold. simpl.
  f_equal. f_equal. unfold fallback_header.
  destruct (List.find _ _) as [l|] eqn:E; simpl; [|done].
  apply List.find_some in E as [_ Ht]. apply andb_true_iff in Ht as [Ht _].
  by rewrite Ht.
Qed.

Lemma fallback_single_block_witness :
  iter_battles (text_of ["|j|x"; "  "; " A vs B "; "|turn|1"; "later text"; "]]]]]"; "|win|A"])
  = [mkBlock "A vs B" ["|j|x"; "|turn|1"; "|win|A"]].
Proof.
  apply (fallback_single_block
           (text_of ["|j|x"; "  "; " A vs B "; "|turn|1"; "later text"; "]]]]]"; "|win|A"])).
  left. reflexivity.
Defined.

End segmenter.

(** * Selection *)

Section selection.

Lemma index_loop_lookup index blocks : forall i,
  i <= index -> index_loop index i blocks = blocks !! Z.to_nat (index - i).
Proof.
  induction blocks as [|b blocks IH]; intros i Hi; simpl; [done|].
  destruct (Z.eqb_spec i index) as [->|Hne].
  - by rewrite Z.sub_diag.
  - rewrite IH by lia.
    replace (Z.to_nat (index - i)) with (S (Z.to_nat (index - (i + 1)))) by lia.
    done.
Qed.

Lemma index_loop_past index blocks : forall i,
  index < i -> index_loop index i blocks = None.
Proof.
  induction blocks as [|b blocks IH]; intros i Hi; simpl; [done|].
  destruct (Z.eqb_spec i index); [lia|]. apply IH. lia.
Qed.

Lemma matchup_loop_lookup target occurrence blocks : forall hits,
  hits <= occurrence ->
  matchup_loop target occurrence hits blocks =
  List.filter (header_matches target) blocks !! Z.to_nat (occurrence - hits).
Proof.
  induction blocks as [|b blocks IH]; intros hits Hh; simpl; [done|].
  unfold header_matches at 1.
  destruct (String.eqb (lower (strip (header b))) target); [|by apply IH].
  destruct (Z.eqb_spec hits occurrence) as [->|Hne].
  - by rewrite Z.sub_diag.
  - rewrite IH by lia.
    replace (Z.to_nat (occurrence - hits))
      with (S (Z.to_nat (occurrence - (hits + 1)))) by lia.
    done.
Qed.

Lemma matchup_loop_past target occurrence blocks : forall hits,
  occurrence < hits -> matchup_loop target occurrence hits blocks = None.
Proof.
  induction blocks as [|b blocks IH]; intros hits Hh; simpl; [done|].
  destruct (String.eqb _ _); [|by apply IH].
  destruct (Z.eqb_spec hits occurrence); [lia|]. apply IH. lia.
Qed.

(** A negative occurrence is never reached by the counter. *)
Lemma get_battle_by_matchup_negative (f : file) matchup occurrence :
  occurrence < 0 ->
  get_battle_by_matchup f matchup occurrence = inl (not_found matchup occurrence).
Proof.
  intros H. unfold get_battle_by_matchup. by rewrite matchup_loop_past by lia.
Qed.

(** Selection by a valid index is the lookup in the emitted sequence. *)
Lemma get_battle_by_index_lookup (f : file) index :
  0 <= index ->
  get_battle_by_index f index =
  match iter_battles f !! Z.to_nat index with
  | Some b => inr b
  | None => inl (out_of_range index)
  end.
Proof.
  intros H. unfold get_battle_by_index.
  rewrite index_loop_lookup by lia. by rewrite Z.sub_0_r.
Qed.

(** C8.  The key and each header are compared trimmed and lowered.  Among
    the matching blocks, in emission order, the one at the zero-based
    position [occurrence] is returned; when fewer than [occurrence + 1]
    blocks match the call fails with the error that names the key and
    the occurrence.  So occurrence 1 fails when exactly one block
    matches. *)
Theorem get_battle_by_matchup_spec (f : file) matchup occurrence :
  let hits := List.filter (header_matches (lower (strip matchup))) (iter_battles f) in
  (forall b, 0 <= occurrence -> hits !! Z.to_nat occurrence = Some b ->
     get_battle_by_matchup f matchup occurrence = inr b)
  /\ (Z.of_nat (length hits) < occurrence + 1 ->
      get_battle_by_matchup f matchup occurrence = inl (not_found matchup occurrence))
  /\ (length hits = 1%nat ->
      get_battle_by_matchup f matchup 1 = inl (not_found matchup 1)).
Proof.
  intros hits. unfold get_battle_by_matchup.
  assert (forall occ, Z.of_nat (length hits) < occ + 1 ->
            matchup_loop (lower (strip matchup)) occ 0 (iter_battles f) = None) as Hfew.
  { intros occ H. rewrite matchup_loop_lookup by lia. fold hits.
    apply lookup_ge_None. lia. }
  split; [|split].
  - intros b H0 Hb. rewrite matchup_loop_lookup by lia.
    fold hits. rewrite Z.sub_0_r, Hb. done.
  - intros H. by rewrite Hfew.
  - intros H. rewrite Hfew; [done|lia].
Qed.

Lemma get_battle_by_matchup_spec_witness :
  let f := text_of ["[[[[["; " Alder vs Alder"; "|turn|1"; "]]]]]";
                    "[[[[["; "Iris vs Alder"; "|turn|2"; "]]]]]";
                    "[[[[["; "alder VS ALDER  "; "|turn|3"; "]]]]]"] in
  let g := text_of ["[[[[["; "Alder vs Alder"; "|turn|1"; "]]]]]";
                    "[[[[["; "Iris vs Alder"; "|turn|2"; "]]]]]"] in
  get_battle_by_matchup f "  ALDER vs alder " 1 = inr (mkBlock "alder VS ALDER" ["|turn|3"])
  /\ get_battle_by_matchup f "Alder vs Alder" 2 = inl (not_found "Alder vs Alder" 2)
  /\ get_battle_by_matchup g "Alder vs Alder" 1 = inl (not_found "Alder vs Alder" 1).
Proof.
  intros f g. split; [|split].
  - apply (proj1 (get_battle_by_matchup_spec f "  ALDER vs alder " 1));
      [lia | reflexivity].
  - apply (proj1 (proj2 (get_battle_by_matchup_spec f "Alder vs Alder" 2))).
    vm_compute. reflexivity.
  - apply (proj2 (proj2 (get_battle_by_matchup_spec g "Alder vs Alder" 1))).
    reflexivity.
Defined.

(** C10.  A negative index selects nothing: the call fails with the
    out-of-range error, although the emitted sequence is never shorter
    than [index + 1] for such an index. *)
Theorem get_battle_by_index_negative (f : file) index :
  index < 0 ->
  get_battle_by_index f index = inl (out_of_range index)
  /\ index + 1 <= Z.of_nat (length (iter_battles f)).
Proof.
  intros H. split; [|lia].
  unfold get_battle_by_index. by rewrite index_loop_past by lia.
Qed.

Lemma get_battle_by_index_negative_witness :
  get_battle_by_index (text_of ["[[[[["; "A vs B"; "|turn|1"; "]]]]]"]) (-1)
  = inl (IndexError "Battle index -1 out of range.").
Proof.
  apply (get_battle_by_index_negative
           (text_of ["[[[[["; "A vs B"; "|turn|1"; "]]]]]"]) (-1)).
  lia.
Defined.

End selection.

(** Two record shapes whose fixed prefixes differ exclude one another:
    write the line as the first prefix followed by a rest, and compare. *)
Ltac shapes_exclude :=
  let H := fresh "H" in
  let r := fresh "r" in
  intros H; destruct (prefix_inv _ _ H) as [r ->]; reflexivity.

(** * The Field Rewriter *)

Section rewriter.

Lemma p1_not_p2 ln : is_p1 ln = true -> is_p2 ln = false.
Proof. shapes_exclude. Qed.

Lemma p1_not_start ln : is_p1 ln = true -> is_start_line ln = false.
Proof. shapes_exclude. Qed.

Lemma p2_not_start ln : is_p2 ln = true -> is_start_line ln = false.
Proof. shapes_exclude. Qed.

Lemma pad6_length parts : (6 <= length (pad6 parts))%nat.
Proof. unfold pad6. rewrite length_app, length_replicate. lia. Qed.

Lemma pad6_id parts : (6 <= length parts)%nat -> pad6 parts = parts.
Proof.
  intros H. unfold pad6.
  replace (6 - length parts)%nat with 0%nat by lia. apply app_nil_r.
Qed.

Lemma pad6_free parts :
  Forall (fun p => free_of PIPE p = true) parts ->
  Forall (fun p => free_of PIPE p = true) (pad6 parts).
Proof.
  intros H. unfold pad6. apply Forall_app. split; [done|].
  by apply Forall_replicate.
Qed.

Lemma set_field_free i v parts :
  free_opt v ->
  Forall (fun p => free_of PIPE p = true) parts ->
  Forall (fun p => free_of PIPE p = true) (set_field i v parts).
Proof.
  destruct v as [x|]; simpl; [|done]. intros Hx Hf.
  apply Forall_insert; [exact Hf|exact Hx].
Qed.

Lemma set_field_nonempty i v parts : parts <> [] -> set_field i v parts <> [].
Proof.
  destruct v as [x|]; simpl; [|done]. intros H Hc. apply H.
  apply (f_equal length) in Hc. rewrite length_insert in Hc.
  by destruct parts.
Qed.

Lemma fix_player_line_eq ln name avatar :
  fix_player_line ln name avatar =
  join "|" (set_field 4 avatar (set_field 3 name (pad6 (split PIPE ln)))).
Proof. reflexivity. Qed.

(** The fields of a rewritten player line: those of the input, padded to
    six, with field 3 or 4 replaced exactly when its override is there. *)
Lemma fix_player_line_fields ln name avatar :
  free_opt name -> free_opt avatar ->
  split PIPE (fix_player_line ln name avatar) =
  set_field 4 avatar (set_field 3 name (pad6 (split PIPE ln))).
Proof.
  intros Hn Ha. rewrite fix_player_line_eq. apply split_join.
  - apply set_field_nonempty, set_field_nonempty.
    pose proof (pad6_length (split PIPE ln)) as Hl. intros Hc.
    rewrite Hc in Hl. simpl in Hl. lia.
  - by apply set_field_free, set_field_free, pad6_free, split_free.
Qed.

Lemma fix_player_line_id ln :
  (6 <= length (split PIPE ln))%nat -> fix_player_line ln None None = ln.
Proof.
  intros H. rewrite fix_player_line_eq. simpl. rewrite pad6_id by done.
  apply join_split.
Qed.

(** A rewritten player line keeps its shape. *)
Lemma fix_player_line_shape side ln name avatar :
  startswith ln ("|player|" +:+ side +:+ "|") = true ->
  free_of PIPE side = true ->
  startswith (fix_player_line ln name avatar) ("|player|" +:+ side +:+ "|") = true.
Proof.
  intros H Hside. destruct (prefix_inv _ _ H) as [r ->].
  rewrite fix_player_line_eq.
  assert (split PIPE (("|player|" +:+ side +:+ "|") +:+ r)
          = "" :: "player" :: side :: split PIPE r) as ->.
  { change (("|player|" +:+ side +:+ "|") +:+ r)
      with (String PIPE ("player" +:+ String PIPE ((side +:+ "|") +:+ r))).
    rewrite app_assoc_s.
    change ("|" +:+ r) with (String PIPE r).
    cbn [split]. rewrite Ascii.eqb_refl.
    rewrite (split_app_sep PIPE "player") by reflexivity.
    by rewrite (split_app_sep PIPE side). }
  pose proof (split_nonempty PIPE r). destruct (split PIPE r) as [|p ps]; [done|].
  assert (exists q qs,
             set_field 4 avatar (set_field 3 name (pad6 ("" :: "player" :: side :: p :: ps)))
             = "" :: "player" :: side :: q :: qs) as (q & qs & ->).
  { destruct name, avatar, ps as [|? [|? ?]]; simpl; eauto. }
  unfold startswith. rewrite !join_cons.
  change ("" +:+ "|" +:+ "player" +:+ "|" +:+ side +:+ "|" +:+ join "|" (q :: qs))
    with ("|player|" +:+ side +:+ "|" +:+ join "|" (q :: qs)).
  rewrite <- !app_assoc_s. apply prefix_app.
Qed.

Lemma rewrite_line_start a b c d ln :
  is_start_line (rewrite_line a b c d ln) = is_start_line ln.
Proof.
  unfold rewrite_line.
  destruct (is_p1 ln) eqn:E1; [|destruct (is_p2 ln) eqn:E2]; [| |done].
  - rewrite (p1_not_start _ E1). apply p1_not_start.
    by apply (fix_player_line_shape "p1").
  - rewrite (p2_not_start _ E2). apply p2_not_start.
    by apply (fix_player_line_shape "p2").
Qed.

Section loop.
Variables p1_name p2_name p1_avatar p2_avatar : option string.

Let step := rewrite_step p1_name p2_name p1_avatar p2_avatar.
Let fixl := rewrite_line p1_name p2_name p1_avatar p2_avatar.

(** The first loop rewrites each line on its own and records which
    sides it met. *)
Lemma rewrite_loop l : forall pre found_p1 found_p2,
  fold_left step (seq (length pre) (length l)) (pre ++ l, found_p1, found_p2) =
  (pre ++ map fixl l, found_p1 || existsb is_p1 l, found_p2 || existsb is_p2 l).
Proof.
  induction l as [|x l IH]; intros pre f1 f2; simpl.
  - by rewrite !orb_false_r.
  - rewrite list_lookup_middle by done.
    assert (forall y, <[length pre := y]> (pre ++ x :: l) = (pre ++ [y]) ++ l) as Hins.
    { intros y. rewrite insert_app_r_alt by lia. rewrite Nat.sub_diag. simpl.
      by rewrite <- app_assoc. }
    assert (forall y, S (length pre) = length (pre ++ [y])) as Hlen.
    { intros y. rewrite length_app. simpl. lia. }
    unfold fixl at 1, rewrite_line. fold (is_p1 x) (is_p2 x).
    destruct (is_p1 x) eqn:E1; [|destruct (is_p2 x) eqn:E2].
    + rewrite (p1_not_p2 _ E1), Hins.
      rewrite (Hlen (fix_player_line x p1_name p1_avatar)), IH.
      rewrite <- app_assoc. simpl. by rewrite orb_true_r.
    + rewrite Hins. rewrite (Hlen (fix_player_line x p2_name p2_avatar)), IH.
      rewrite <- app_assoc. simpl. by rewrite orb_true_r.
    + replace (pre ++ x :: l) with ((pre ++ [x]) ++ l) by by rewrite <- app_assoc.
      rewrite (Hlen x), IH. rewrite <- app_assoc. done.
Qed.

Lemma rewrite_loop_whole l :
  fold_left step (seq 0 (length l)) (l, false, false) =
  (map fixl l, existsb is_p1 l, existsb is_p2 l).
Proof. apply (rewrite_loop l [] false false). Qed.
End loop.

Lemma start_index_spec lines : forall i,
  match start_index i lines with
  | Some k =>
      exists j ln, k = (i + j)%nat /\ lines !! j = Some ln /\ is_start_line ln = true
                   /\ Forall (fun l => is_start_line l = false) (take j lines)
  | None => Forall (fun l => is_start_line l = false) lines
  end.
Proof.
  induction lines as [|x lines IH]; intros i; simpl; [done|].
  fold (is_start_line x). destruct (is_start_line x) eqn:E.
  - exists 0%nat, x. repeat split; [lia|done|done].
  - specialize (IH (S i)). destruct (start_index (S i) lines) as [k|].
    + destruct IH as (j & ln & -> & Hl & Hs & Hf).
      exists (S j), ln. repeat split; [lia|done|done|]. simpl. by constructor.
    + by constructor.
Qed.

Lemma synth_player_p1 name avatar : is_p1 (synth_player "p1" name avatar) = true.
Proof.
  change (String.prefix "|player|p1|"
            ("|player|p1|" +:+ or_else name "p1" +:+ "|" +:+ or_else avatar "1" +:+ "|")
          = true).
  apply prefix_app.
Qed.

Lemma synth_player_p2 name avatar : is_p2 (synth_player "p2" name avatar) = true.
Proof.
  change (String.prefix "|player|p2|"
            ("|player|p2|" +:+ or_else name "p2" +:+ "|" +:+ or_else avatar "1" +:+ "|")
          = true).
  apply prefix_app.
Qed.

(** Rewriting moves no [|start|] line, so the second loop finds the index
    it would find in the input. *)
Lemma start_index_rewritten a b c d lines : forall i,
  start_index i (map (rewrite_line a b c d) lines) = start_index i lines.
Proof.
  induction lines as [|x lines IH]; intros i; simpl; [done|].
  fold (is_start_line (rewrite_line a b c d x)) (is_start_line x).
  by rewrite rewrite_line_start, IH.
Qed.

Lemma insert_at_point lines : insertion_point lines (default 0%nat (start_index 0 lines)).
Proof.
  pose proof (start_index_spec lines 0) as H.
  destruct (start_index 0 lines) as [k|]; simpl.
  - destruct H as (j & ln & -> & ? & ? & ?). left. by exists ln.
  - by right.
Qed.

Lemma insertion_point_le lines k : insertion_point lines k -> (k <= length lines)%nat.
Proof.
  intros [(ln & Hl & _)|[-> _]]; [|lia].
  apply lookup_lt_Some in Hl. lia.
Qed.

Lemma override_players_eq a b c d lines :
  override_players a b c d lines =
  let out := map (rewrite_line a b c d) lines in
  let k := default 0%nat (start_index 0 out) in
  let out1 :=
    if negb (existsb is_p1 lines) && (bool_decide (a <> None) || bool_decide (c <> None))
    then list_insert_at k (synth_player "p1" a c) out else out in
  if negb (existsb is_p2 lines) && (bool_decide (b <> None) || bool_decide (d <> None))
  then list_insert_at k (synth_player "p2" b d) out1 else out1.
Proof. unfold override_players. by rewrite rewrite_loop_whole. Qed.

Lemma rewrite_line_other a b c d lines :
  Forall (fun ln => is_p1 ln = false /\ is_p2 ln = false) lines ->
  map (rewrite_line a b c d) lines = lines
  /\ existsb is_p1 lines = false /\ existsb is_p2 lines = false.
Proof.
  induction 1 as [|x l [H1 H2] _ (IH & I1 & I2)]; [done|]. simpl.
  unfold rewrite_line at 1. by rewrite H1, H2, IH, I1, I2.
Qed.

(** C7.  With no player line for either side in the input and both name
    overrides supplied, the output is the input with exactly two new
    player lines put in, next to each other, right before the first
    [|start|] line, or at the very beginning when there is none; every
    input line is kept, unchanged and in order. *)
Theorem insert_missing_players lines n1 n2 a1 a2 :
  Forall (fun ln => is_p1 ln = false /\ is_p2 ln = false) lines ->
  exists k,
    insertion_point lines k
    /\ override_players (Some n1) (Some n2) a1 a2 lines =
       take k lines
         ++ [synth_player "p2" (Some n2) a2; synth_player "p1" (Some n1) a1]
         ++ drop k lines
    /\ is_p2 (synth_player "p2" (Some n2) a2) = true
    /\ is_p1 (synth_player "p1" (Some n1) a1) = true.
Proof.
  intros H. destruct (rewrite_line_other (Some n1) (Some n2) a1 a2 _ H) as (Hm & H1 & H2).
  exists (default 0%nat (start_index 0 lines)).
  pose proof (insert_at_point lines) as Hk.
  pose proof (insertion_point_le _ _ Hk) as Hle.
  split; [done|].
  split; [|split; [apply synth_player_p2|apply synth_player_p1]].
  rewrite override_players_eq, Hm, H1, H2. cbv zeta.
  rewrite !(bool_decide_eq_true_2 (Some _ <> None)) by done. simpl.
  unfold list_insert_at.
  rewrite take_app_length' by (by rewrite length_take_le).
  rewrite drop_app_length' by (by rewrite length_take_le). done.
Qed.

Lemma insert_missing_players_witness :
  override_players (Some "Ann") (Some "") None (Some "7")
                   ["|j|x"; "|gametype|singles"; "|start|"; "|turn|1"; "|start|"]
  = ["|j|x"; "|gametype|singles"; "|player|p2|p2|7|"; "|player|p1|Ann|1|";
     "|start|"; "|turn|1"; "|start|"].
Proof.
  destruct (insert_missing_players
              ["|j|x"; "|gametype|singles"; "|start|"; "|turn|1"; "|start|"]
              "Ann" "" None (Some "7")) as (k & Hk & Hout & _).
  - repeat constructor.
  - rewrite Hout. destruct Hk as [(ln & Hl & Hs & Hf)|[-> Hf]].
    + destruct k as [|[|[|k]]].
      * by injection Hl as <-.
      * by injection Hl as <-.
      * reflexivity.
      * exfalso. simpl in Hf.
        apply Forall_cons in Hf as [_ Hf]. apply Forall_cons in Hf as [_ Hf].
        apply Forall_cons in Hf as [Hf _]. discriminate Hf.
    + exfalso.
      apply Forall_cons in Hf as [_ Hf]. apply Forall_cons in Hf as [_ Hf].
      apply Forall_cons in Hf as [Hf _]. discriminate Hf.
Defined.

(** C6, as amended.  Under a side-1 name override alone, every line that
    is no player line is kept byte for byte, and so is every side-2 line
    of six fields or more; a shorter side-2 line only gains empty fields
    up to six, its own fields (the avatar among them) unchanged; a side-1
    line is padded alike and has field 3 alone replaced.  At most one new
    side-1 line is put in, and only when the input has none.  In any
    player line, field 3 and field 4 are replaced exactly when the
    respective override is supplied. *)
Theorem p1_name_override_frame lines n :
  (exists rewritten,
     Forall2 (p1_name_only n) lines rewritten
     /\ if existsb is_p1 lines
        then override_players (Some n) None None None lines = rewritten
        else exists k, insertion_point lines k
               /\ override_players (Some n) None None None lines =
                  take k rewritten ++ synth_player "p1" (Some n) None :: drop k rewritten)
  /\ (forall ln name avatar,
        free_opt name -> free_opt avatar ->
        split PIPE (fix_player_line ln name avatar) =
        set_field 4 avatar (set_field 3 name (pad6 (split PIPE ln)))).
Proof.
  split; [|apply fix_player_line_fields].
  exists (map (rewrite_line (Some n) None None None) lines). split.
  - induction lines as [|x l IH]; simpl; constructor; [|done].
    unfold p1_name_only, rewrite_line.
    destruct (is_p1 x); [|destruct (is_p2 x)]; [| |done].
    + split; [done|]. intros Hn. by apply (fix_player_line_fields x (Some n) None).
    + split; [by apply (fix_player_line_fields x None None)|].
      apply fix_player_line_id.
  - rewrite override_players_eq. cbv zeta. rewrite start_index_rewritten.
    rewrite (bool_decide_eq_true_2 (Some n <> None)) by done.
    rewrite !(bool_decide_eq_false_2 (None <> None)) by (intros H; by apply H).
    rewrite andb_false_r. simpl.
    destruct (existsb is_p1 lines); simpl; [done|].
    eexists. split; [apply insert_at_point|done].
Qed.

Lemma p1_name_override_frame_witness :
  exists rewritten,
    Forall2 (p1_name_only "Ann") ["|player|p1|A|3|"; "|player|p2|B|7|"; "|turn|1"] rewritten
    /\ override_players (Some "Ann") None None None
         ["|player|p1|A|3|"; "|player|p2|B|7|"; "|turn|1"] = rewritten.
Proof.
  exact (proj1 (p1_name_override_frame
                  ["|player|p1|A|3|"; "|player|p2|B|7|"; "|turn|1"] "Ann")).
Defined.

(** C6, as first stated, fails on a side-2 line of fewer than six fields:
    the rewrite pads it although no side-2 override is supplied. *)
Lemma p1_name_override_pads_p2_counterexample :
  is_p2 "|player|p2|B" = true
  /\ override_players (Some "Ann") None None None ["|player|p1|A|3|"; "|player|p2|B"]
     = ["|player|p1|Ann|3|"; "|player|p2|B||"]
  /\ ~ In "|player|p2|B"
         (override_players (Some "Ann") None None None ["|player|p1|A|3|"; "|player|p2|B"]).
Proof.
  split; [reflexivity|]. split; [reflexivity|].
  intros [H|[H|[]]]; discriminate H.
Qed.

End rewriter.

(** * The Record Builder *)

Section builder.

(** The four record shapes exclude one another. *)
Lemma p1_not_tier ln : is_p1 ln = true -> startswith ln "|tier|" = false.
Proof. shapes_exclude. Qed.

Lemma p1_not_t ln : is_p1 ln = true -> startswith ln "|t:|" = false.
Proof. shapes_exclude. Qed.

Lemma p2_not_tier ln : is_p2 ln = true -> startswith ln "|tier|" = false.
Proof. shapes_exclude. Qed.

Lemma p2_not_t ln : is_p2 ln = true -> startswith ln "|t:|" = false.
Proof. shapes_exclude. Qed.

Lemma tier_not_t ln : startswith ln "|tier|" = true -> startswith ln "|t:|" = false.
Proof. shapes_exclude. Qed.

Lemma last_match_cons sel x lines d :
  last_match sel (x :: lines) d =
  last_match sel lines (default d (sel x)).
Proof.
  unfold last_match. destruct (sel x) as [v|] eqn:E.
  - assert (omap sel (x :: lines) = v :: omap sel lines) as ->
      by (simpl; by rewrite E).
    rewrite last_cons. by destruct (last (omap sel lines)).
  - simpl. by rewrite E.
Qed.

(** What one step does to each local, in terms of the line's offers. *)
Lemma scan_step_offers st ln :
  scan_step st ln =
  mkScan (default (scan_p1 st) (sel_p1 ln)) (default (scan_p2 st) (sel_p2 ln))
         (default (scan_fmt st) (sel_fmt ln))
         (match scan_ts st with Some t => Some t | None => sel_ts ln end).
Proof.
  unfold scan_step, sel_p1, sel_p2, sel_fmt, sel_ts.
  fold (is_p1 ln) (is_p2 ln).
  destruct st as [a b c t]. simpl.
  destruct (is_p1 ln) eqn:E1.
  { rewrite (p1_not_p2 _ E1), (p1_not_tier _ E1), (p1_not_t _ E1).
    destruct (field 3 ln), t; reflexivity. }
  destruct (is_p2 ln) eqn:E2.
  { rewrite (p2_not_tier _ E2), (p2_not_t _ E2).
    destruct (field 3 ln), t; reflexivity. }
  destruct (startswith ln "|tier|") eqn:E3.
  { rewrite (tier_not_t _ E3). destruct (field 2 ln), t; reflexivity. }
  destruct t, (startswith ln "|t:|"); reflexivity.
Qed.

Lemma scan_fold lines : forall st,
  fold_left scan_step lines st =
  mkScan (last_match sel_p1 lines (scan_p1 st)) (last_match sel_p2 lines (scan_p2 st))
         (last_match sel_fmt lines (scan_fmt st))
         (match scan_ts st with
          | Some t => Some t
          | None => head (omap sel_ts lines)
          end).
Proof.
  induction lines as [|x lines IH]; intros st; simpl.
  - by destruct st as [? ? ? []].
  - rewrite IH, scan_step_offers, !last_match_cons. simpl. f_equal.
    destruct (scan_ts st); [done|]. by destruct (sel_ts x).
Qed.

(** C1, as amended.  One pass over the lines fixes each field, and the
    last offer wins: player 1 and player 2 come from the last player line
    of their side whose field 3 is non-empty, else they are the side
    tokens; the format comes from the last tier line whose field 2 is
    non-empty, else it is the default. *)
Theorem record_fields_last_match now lines room full :
  p1 (build_replay_object now lines room full) = last_match sel_p1 lines "p1"
  /\ p2 (build_replay_object now lines room full) = last_match sel_p2 lines "p2"
  /\ format (build_replay_object now lines room full)
     = last_match sel_fmt lines "Custom Game".
Proof. unfold build_replay_object. by rewrite scan_fold. Qed.

(** C1, as first stated, fails when a side has two player lines: the
    first named offer is not the one kept. *)
Lemma record_fields_first_match_counterexample :
  first_match sel_p1 ["|player|p1|A|1|"; "|player|p1|B|2|"] "p1" = "A"
  /\ p1 (build_replay_object 0 ["|player|p1|A|1|"; "|player|p1|B|2|"] "sim" false) = "B"
  /\ p1 (build_replay_object 0 ["|player|p1|A|1|"; "|player|p1|B|2|"] "sim" false)
     <> first_match sel_p1 ["|player|p1|A|1|"; "|player|p1|B|2|"] "p1".
Proof. repeat split; discriminate. Qed.

(** C2, as amended.  The timestamp comes from the first [|t:|] line whose
    field 2 parses as an integer the calendar accepts, formatted in UTC;
    a line that does not parse is passed over, and when no line is left
    the clock is formatted instead.  No input makes the builder fail. *)
Theorem record_timestamp now lines room full :
  timestamp (build_replay_object now lines room full)
  = first_match sel_ts lines (Calendar.strftime now).
Proof.
  unfold build_replay_object, first_match. rewrite scan_fold. simpl.
  by destruct (head _).
Qed.

(** C2, as first stated, fails when the first [|t:|] line does not parse
    and a later one does: the later line gives the timestamp, not the
    clock. *)
Lemma record_timestamp_first_line_counterexample :
  first_t_line_timestamp 0 ["|t:|soon"; "|t:|1700000000"] = "Thu Jan 01 1970 00:00:00"
  /\ timestamp (build_replay_object 0 ["|t:|soon"; "|t:|1700000000"] "sim" false)
     = "Tue Nov 14 2023 22:13:20"
  /\ timestamp (build_replay_object 0 ["|t:|soon"; "|t:|1700000000"] "sim" false)
     <> first_t_line_timestamp 0 ["|t:|soon"; "|t:|1700000000"].
Proof. split; [|split]; [vm_compute; reflexivity ..|]. vm_compute. discriminate. Qed.

End builder.

(** * The examples of the specification *)

Section examples.

Let sample : file :=
  text_of ["[[[[["; "A vs B"; "|player|p1|A|1|"; "|player|p2|B|2|"; "]]]]]"].

Example sample_segments :
  iter_battles sample = [mkBlock "A vs B" ["|player|p1|A|1|"; "|player|p2|B|2|"]].
Proof. reflexivity. Qed.

Example sample_record now :
  match get_battle_by_index sample 0 with
  | inr block =>
      let r := build_replay_object now (protocol_lines block) "simbattle0" false in
      p1 r = "A" /\ p2 r = "B" /\ format r = "Custom Game"
      /\ log r = ["|player|p1|A|1|"; "|player|p2|B|2|"; ""]
  | inl _ => False
  end.
Proof. repeat split. Qed.

Example sample_timestamp now :
  timestamp (build_replay_object now ["|t:|1700000000"] "sim" false)
  = "Tue Nov 14 2023 22:13:20".
Proof. reflexivity. Qed.

Example sample_rewrite_again :
  override_players (Some "Cy") None None None
    (override_players (Some "Ann") None None None ["|start|"; "|turn|1"])
  = ["|player|p1|Cy|1|"; "|start|"; "|turn|1"].
Proof. reflexivity. Qed.

End examples.

(** * Further properties of the segmenter *)

Section trimming.
Variable sp : ascii -> bool.

Lemma ltrim_head c r s : ltrim sp s = String c r -> sp c = false.
Proof.
  induction s as [|d s IH]; simpl; [done|].
  destruct (sp d) eqn:E; [done|]. by intros [= <- _].
Qed.

Lemma rtrim_cons_keep c r : sp c = false -> exists r', rtrim sp (String c r) = String c r'.
Proof.
  intros H. simpl. destruct (rtrim sp r); [rewrite H|]; eauto.
Qed.

Lemma rtrim_idemp s : rtrim sp (rtrim sp s) = rtrim sp s.
Proof.
  induction s as [|c s IH]; simpl; [done|].
  destruct (rtrim sp s) as [|d r] eqn:E.
  - destruct (sp c) eqn:Ec; simpl; [done|]. by rewrite Ec.
  - change (rtrim sp (String c (String d r)))
      with (match rtrim sp (String d r) with
            | EmptyString => if sp c then EmptyString else String c EmptyString
            | r' => String c r'
            end).
    by rewrite IH.
Qed.

Lemma trim_idemp s : trim sp (trim sp s) = trim sp s.
Proof.
  unfold trim. destruct (ltrim sp s) as [|c r] eqn:E; [done|].
  pose proof (ltrim_head _ _ _ E) as Hc.
  destruct (rtrim_cons_keep c r Hc) as [r' Hr]. rewrite Hr.
  assert (ltrim sp (String c r') = String c r') as -> by (simpl; by rewrite Hc).
  by rewrite <- Hr, rtrim_idemp.
Qed.
End trimming.

Lemma strip_idemp s : strip (strip s) = strip s.
Proof. apply trim_idemp. Qed.

Lemma protocol_line_strip l : is_protocol l = true -> exists r, strip l = String PIPE r.
Proof.
  intros H. destruct (prefix_inv _ _ H) as [r ->].
  change ("|" +:+ r) with (String PIPE r). unfold strip, trim.
  apply rtrim_cons_keep. reflexivity.
Qed.

Lemma protocol_line_not_end l : is_protocol l = true -> strip l <> END.
Proof. intros H. by destruct (protocol_line_strip l H) as [r ->]. Qed.

Section segmenter_invariants.

Lemma truthy_nonempty s : truthy s = true <-> s <> EmptyString.
Proof. destruct s; simpl; split; done. Qed.

Lemma or_else_header ls h :
  match h with
  | Some h => h <> EmptyString /\ exists l, In l ls /\ h = strip l
  | None => True
  end ->
  or_else h UNKNOWN_MATCHUP <> EmptyString
  /\ strip (or_else h UNKNOWN_MATCHUP) = or_else h UNKNOWN_MATCHUP
  /\ (or_else h UNKNOWN_MATCHUP = UNKNOWN_MATCHUP
      \/ exists l, In l ls /\ or_else h UNKNOWN_MATCHUP = strip l).
Proof.
  destruct h as [h|]; simpl; [|by auto].
  intros [Hne (l & Hl & ->)]. apply truthy_nonempty in Hne. rewrite Hne.
  split; [by apply truthy_nonempty|]. split; [apply strip_idemp|]. right. eauto.
Qed.

Lemma locals_ok_mono ls ls' st :
  (forall l, In l ls -> In l ls') -> locals_ok ls st -> locals_ok ls' st.
Proof.
  intros Hsub (H1 & H2 & H3). split; [done|]. split.
  - eapply Forall_impl; [exact H2|]. intros l [? ?]. auto.
  - destruct (cur_header st); [|done]. destruct H3 as [? (l & ? & ?)]. eauto.
Qed.

Lemma outside_ok ls : locals_ok ls outside.
Proof. by repeat split. Qed.

Lemma marked_step_ok ls st x :
  locals_ok ls st -> In x ls ->
  locals_ok ls (marked_step st x).1
  /\ forall b, (marked_step st x).2 = Some b -> block_ok ls b.
Proof.
  intros Hok Hx. pose proof Hok as (H1 & H2 & H3). unfold marked_step.
  destruct (in_block st) eqn:Ei; simpl.
  - destruct (String.eqb (strip x) END).
    + simpl. split; [apply outside_ok|].
      intros b [= <-]. split; [done|]. by apply (or_else_header ls).
    + destruct (waiting_for_header st).
      * destruct (truthy (strip x)) eqn:Et; simpl; [|by split].
        split; [|done]. split; [by simpl|]. split; [done|].
        simpl. split; [by apply truthy_nonempty|eauto].
      * fold (is_protocol x). destruct (is_protocol x) eqn:Ep; simpl; [|by split].
        split; [|done]. split; [by simpl|]. split; [|done].
        simpl. apply Forall_app. split; [done|]. by repeat constructor.
  - destruct (String.eqb (strip x) START); simpl; [|by split].
    split; [|done]. split; [done|]. by split.
Qed.

Lemma marked_run_ok lines : forall ls st,
  locals_ok ls st -> (forall l, In l lines -> In l ls) ->
  Forall (block_ok ls) (marked_run st lines).1 /\ locals_ok ls (marked_run st lines).2.
Proof.
  induction lines as [|x lines IH]; intros ls st Hst Hsub; simpl; [by split|].
  destruct (marked_step_ok ls st x Hst) as [Hst' Hb]; [apply Hsub; by left|].
  destruct (marked_step st x) as [st' y]. simpl in *.
  destruct (IH ls st' Hst') as [Hbs Hfin]; [intros l Hl; apply Hsub; by right|].
  destruct (marked_run st' lines) as [bs fin]. simpl in *. split; [|done].
  destruct y as [b|]; [|done]. constructor; [by apply Hb|done].
Qed.

Lemma fallback_block_ok (f : file) : block_ok (read_lines f) (parse_single_battle_fallback f).
Proof.
  unfold parse_single_battle_fallback. rewrite fallback_fold. simpl.
  split; [|apply (or_else_header (read_lines f))].
  - apply List.Forall_forall. intros l Hl. apply List.filter_In in Hl as [? ?]. by split.
  - destruct (List.find _ _) as [l|] eqn:E; simpl; [|done].
    apply List.find_some in E as [Hl Ht]. apply andb_true_iff in Ht as [Ht _].
    split; [by apply truthy_nonempty|eauto].
Qed.

Lemma iter_battles_ok (f : file) : Forall (block_ok (read_lines f)) (iter_battles f).
Proof.
  unfold iter_battles. destruct (_ && _).
  - unfold iter_battles_marked. by apply marked_run_ok; [apply outside_ok|].
  - constructor; [apply fallback_block_ok|constructor].
Qed.

(** X1.  Whatever the mode, a block holds protocol lines only, and each of
    them is a line of the file. *)
Theorem blocks_hold_protocol_lines (f : file) b l :
  In b (iter_battles f) -> In l (protocol_lines b) ->
  is_protocol l = true /\ In l (read_lines f).
Proof.
  intros Hb Hl. pose proof (iter_battles_ok f) as H.
  rewrite List.Forall_forall in H. destruct (H b Hb) as [Hp _].
  rewrite List.Forall_forall in Hp. by apply Hp.
Qed.

Lemma blocks_hold_protocol_lines_witness :
  is_protocol "|turn|1" = true
  /\ In "|turn|1" (read_lines (text_of ["[[[[["; "A vs B"; "note"; "|turn|1"; "]]]]]"])).
Proof.
  apply (blocks_hold_protocol_lines
           (text_of ["[[[[["; "A vs B"; "note"; "|turn|1"; "]]]]]"])
           (mkBlock "A vs B" ["|turn|1"]) "|turn|1").
  - left. reflexivity.
  - left. reflexivity.
Defined.

(** X2.  Whatever the mode, the header of a block is never empty and
    carries no surrounding white space: it is the sentinel or the trimmed
    text of a line of the file. *)
Theorem blocks_headers_trimmed (f : file) b :
  In b (iter_battles f) ->
  header b <> EmptyString /\ strip (header b) = header b
  /\ (header b = UNKNOWN_MATCHUP \/ exists l, In l (read_lines f) /\ header b = strip l).
Proof.
  intros Hb. pose proof (iter_battles_ok f) as H.
  rewrite List.Forall_forall in H. by destruct (H b Hb) as (_ & ? & ? & ?).
Qed.

Lemma blocks_headers_trimmed_witness :
  header (mkBlock "UNKNOWN_MATCHUP" []) <> EmptyString
  /\ strip "UNKNOWN_MATCHUP" = "UNKNOWN_MATCHUP".
Proof.
  destruct (blocks_headers_trimmed (text_of ["[[[[["; "  "; "]]]]]"; "|turn|1"; "  "])
              (mkBlock "UNKNOWN_MATCHUP" [])) as (H1 & H2 & _).
  - left. reflexivity.
  - split; [exact H1|exact H2].
Defined.

End segmenter_invariants.

Section segmenter_structure.

(** The step seen through [classify]: where it leaves [in_block], and when
    it yields. *)
Lemma marked_step_in_block st x :
  in_block (marked_step st x).1 =
  match classify x with
  | Some MStart => true
  | Some MEnd => false
  | None => in_block st
  end.
Proof.
  destruct (classify x) as [[]|] eqn:Ec.
  - apply classify_start in Ec. unfold marked_step. rewrite Ec.
    destruct (in_block st) eqn:Ei; simpl; [|done].
    destruct (waiting_for_header st); [done|].
    destruct (startswith x "|"); simpl; by rewrite ?Ei.
  - apply classify_end in Ec. unfold marked_step. rewrite Ec.
    destruct (in_block st) eqn:Ei; simpl; by rewrite ?Ei.
  - by destruct (marked_step_unmarked st x Ec).
Qed.

Lemma marked_step_yields st x :
  (marked_step st x).2 =
  match classify x with
  | Some MEnd =>
      if in_block st
      then Some (mkBlock (or_else (cur_header st) UNKNOWN_MATCHUP) (cur_lines st))
      else None
  | _ => None
  end.
Proof.
  destruct (classify x) as [[]|] eqn:Ec.
  - destruct (marked_step st x).2 as [b|] eqn:E; [|done].
    apply marked_step_yield in E. apply classify_start in Ec.
    rewrite Ec in E. by destruct START_neq_END.
  - apply classify_end in Ec. unfold marked_step. rewrite Ec.
    by destruct (in_block st).
  - by destruct (marked_step_unmarked st x Ec).
Qed.

(** At the end of input the segmenter is inside a block exactly when the
    last marker line it read is a start marker. *)
Lemma marked_run_in_block lines : forall st,
  in_block (marked_run st lines).2 =
  match last (markers lines) with
  | Some MStart => true
  | Some MEnd => false
  | None => in_block st
  end.
Proof.
  induction lines as [|x lines IH]; intros st; [done|]. simpl.
  pose proof (marked_step_in_block st x) as Hs.
  destruct (marked_step st x) as [st' y]. specialize (IH st').
  destruct (marked_run st' lines) as [bs fin]. simpl in *. rewrite IH, Hs.
  unfold markers. simpl. destruct (classify x) as [m|]; simpl; [|done].
  rewrite last_cons. by destruct (last (omap classify lines)).
Qed.

Lemma marked_run_sublist lines : forall st,
  concat (protocol_lines <$> (marked_run st lines).1) ++ cur_lines (marked_run st lines).2
  `sublist_of` cur_lines st ++ List.filter is_protocol lines.
Proof.
  induction lines as [|x lines IH]; intros st; simpl.
  { by rewrite app_nil_r. }
  assert (forall A, A `sublist_of` cur_lines st ++ List.filter is_protocol lines ->
                    A `sublist_of` cur_lines st
                         ++ (if is_protocol x then x :: List.filter is_protocol lines
                             else List.filter is_protocol lines)) as Hskip.
  { intros A HA. destruct (is_protocol x); [|done].
    etrans; [exact HA|]. apply sublist_app; [done|]. by apply sublist_cons. }
  unfold marked_step.
  destruct (in_block st) eqn:Ei; simpl.
  - destruct (String.eqb (strip x) END).
    + specialize (IH outside). destruct (marked_run outside lines) as [bs fin].
      simpl in *. rewrite <- app_assoc. apply sublist_app; [done|].
      destruct (is_protocol x); [by apply sublist_cons|done].
    + destruct (waiting_for_header st).
      * destruct (truthy (strip x)).
        -- specialize (IH (mkLocals true false (Some (strip x)) (cur_lines st))).
           destruct (marked_run _ lines) as [bs fin]. simpl in *. by apply Hskip.
        -- specialize (IH st). destruct (marked_run st lines) as [bs fin].
           simpl in *. by apply Hskip.
      * fold (is_protocol x). destruct (is_protocol x) eqn:Ep.
        -- specialize (IH (mkLocals true false (cur_header st) (cur_lines st ++ [x]))).
           destruct (marked_run _ lines) as [bs fin]. simpl in *.
           by rewrite <- app_assoc in IH.
        -- specialize (IH st). by destruct (marked_run st lines) as [bs fin].
  - destruct (String.eqb (strip x) START).
    + specialize (IH awaiting). destruct (marked_run awaiting lines) as [bs fin].
      simpl in *. apply sublist_inserts_l.
      destruct (is_protocol x); [by apply sublist_cons|done].
    + specialize (IH st). destruct (marked_run st lines) as [bs fin].
      simpl in *. by apply Hskip.
Qed.

(** X3.  Whatever the mode, the protocol lines of the blocks, read block
    after block, are lines of the file in file order: none is invented,
    repeated or moved. *)
Theorem blocks_keep_file_order (f : file) :
  concat (protocol_lines <$> iter_battles f)
  `sublist_of` List.filter is_protocol (read_lines f).
Proof.
  unfold iter_battles. destruct (_ && _).
  - unfold iter_battles_marked.
    pose proof (marked_run_sublist (read_lines f) outside) as H. simpl in H.
    etrans; [|exact H]. by apply sublist_inserts_r.
  - unfold parse_single_battle_fallback. rewrite fallback_fold. simpl.
    by rewrite app_nil_r.
Qed.

Lemma marked_run_bound lines : forall st,
  (length (marked_run st lines).1 <= length (List.filter is_end (markers lines)))%nat
  /\ (length (marked_run st lines).1
      <= (if in_block st then 1 else 0) + length (List.filter is_start (markers lines)))%nat.
Proof.
  induction lines as [|x lines IH]; intros st; simpl; [lia|].
  pose proof (marked_step_in_block st x) as Hi.
  pose proof (marked_step_yields st x) as Hy.
  destruct (marked_step st x) as [st' y]. specialize (IH st').
  destruct (marked_run st' lines) as [bs fin]. simpl in *.
  unfold markers in *. simpl. rewrite Hi in IH. subst y.
  destruct (classify x) as [[]|]; simpl.
  - destruct (in_block st); simpl in *; lia.
  - destruct (in_block st); simpl in *; lia.
  - done.
Qed.

(** X4.  On any input, well-formed or not, Marked mode emits no more
    blocks than the file has start-marker lines, and no more than it has
    end-marker lines. *)
Theorem marked_blocks_bounded (f : file) :
  (length (iter_battles_marked f) <= marker_pairs f)%nat
  /\ (length (iter_battles_marked f)
      <= length (List.filter is_end (markers (read_lines f))))%nat.
Proof.
  unfold iter_battles_marked, marker_pairs.
  destruct (marked_run_bound (read_lines f) outside) as [H1 H2]. simpl in H2.
  split; lia.
Qed.

(** A segmenter that is not inside a block has forgotten everything. *)
Lemma marked_run_outside lines st :
  locals_ok lines (marked_run st lines).2 ->
  in_block (marked_run st lines).2 = false -> (marked_run st lines).2 = outside.
Proof. intros (H & _) Hi. by apply H. Qed.

(** X5.  Segmenting in Marked mode distributes over putting two runs of
    lines one after the other, as long as the first run does not end
    inside a block, that is, its last marker line is not a start marker. *)
Theorem marked_segmentation_app (l1 l2 : list string) :
  Forall one_line (l1 ++ l2) ->
  last (markers l1) <> Some MStart ->
  iter_battles_marked (text_of (l1 ++ l2)) =
  iter_battles_marked (text_of l1) ++ iter_battles_marked (text_of l2).
Proof.
  intros Hl Hlast. pose proof Hl as Hl'. apply Forall_app in Hl' as [H1 H2].
  unfold iter_battles_marked. rewrite !read_lines_text_of by done.
  rewrite marked_run_app. simpl.
  assert ((marked_run outside l1).2 = outside) as ->; [|done].
  apply marked_run_outside.
  - by apply marked_run_ok; [apply outside_ok|].
  - rewrite marked_run_in_block. by destruct (last (markers l1)) as [[]|].
Qed.

Lemma marked_segmentation_app_witness :
  iter_battles_marked
    (text_of (["[[[[["; "A vs B"; "|turn|1"; "]]]]]"; "between"]
              ++ ["[[[[["; "C vs D"; "]]]]]"]))
  = [mkBlock "A vs B" ["|turn|1"]] ++ [mkBlock "C vs D" []].
Proof.
  apply (marked_segmentation_app
           ["[[[[["; "A vs B"; "|turn|1"; "]]]]]"; "between"]
           ["[[[[["; "C vs D"; "]]]]]"]).
  - repeat constructor.
  - discriminate.
Defined.

Lemma marked_run_quiet st st' x l :
  marked_step st x = (st', None) -> marked_run st (x :: l) = marked_run st' l.
Proof. intros H. simpl. rewrite H. by destruct (marked_run st' l). Qed.

Lemma marked_run_collect ps : forall h acc,
  Forall (fun l => is_protocol l = true) ps ->
  marked_run (mkLocals true false h acc) (ps ++ [END]) =
  ([mkBlock (or_else h UNKNOWN_MATCHUP) (acc ++ ps)], outside).
Proof.
  induction ps as [|p ps IH]; intros h acc Hp.
  - by rewrite app_nil_r.
  - apply Forall_cons in Hp as [Hp Hps].
    change ((p :: ps) ++ [END]) with (p :: (ps ++ [END])).
    rewrite (marked_run_quiet _ (mkLocals true false h (acc ++ [p]))).
    + rewrite IH by done. by rewrite <- app_assoc.
    + unfold marked_step. simpl.
      pose proof (protocol_line_not_end p Hp) as Hne.
      apply String.eqb_neq in Hne. rewrite Hne.
      unfold is_protocol in Hp. by rewrite Hp.
Qed.

Lemma marked_run_render_one h ps :
  renderable (mkBlock h ps) ->
  marked_run outside (render (mkBlock h ps)) = ([mkBlock h ps], outside).
Proof.
  intros (Hne & Htrim & Hend & _ & Hps).
  unfold render. cbn [header protocol_lines] in *.
  rewrite (marked_run_quiet outside awaiting) by reflexivity.
  rewrite (marked_run_quiet awaiting (mkLocals true false (Some h) [])).
  - rewrite marked_run_collect.
    + simpl. apply truthy_nonempty in Hne. by rewrite Hne.
    + eapply Forall_impl; [exact Hps|]. by intros l [? _].
  - unfold marked_step. simpl. rewrite Htrim.
    apply String.eqb_neq in Hend. rewrite Hend.
    apply truthy_nonempty in Hne. by rewrite Hne.
Qed.

Lemma marked_run_render bs :
  Forall renderable bs ->
  marked_run outside (concat (render <$> bs)) = (bs, outside).
Proof.
  induction 1 as [|[h ps] bs Hb _ IH]; [done|].
  change (concat (render <$> mkBlock h ps :: bs))
    with (render (mkBlock h ps) ++ concat (render <$> bs)).
  rewrite marked_run_app, (marked_run_render_one h ps Hb). simpl. by rewrite IH.
Qed.

Lemma render_one_line bs :
  Forall renderable bs -> Forall one_line (concat (render <$> bs)).
Proof.
  induction 1 as [|[h ps] bs (_ & _ & _ & Hh & Hps) _ IH]; [done|].
  simpl in *. constructor; [done|]. constructor; [done|].
  rewrite <- app_assoc. apply Forall_app. split.
  - eapply Forall_impl; [exact Hps|]. by intros l [_ ?].
  - by constructor.
Qed.

(** X6.  Blocks written out in marked form (start marker, header, protocol
    lines, end marker) are read back as they were, in order; with at least
    one block the mode selection itself settles on Marked mode. *)
Theorem render_roundtrip (bs : list BattleBlock) :
  Forall renderable bs ->
  iter_battles_marked (text_of (concat (render <$> bs))) = bs
  /\ (bs <> [] -> iter_battles (text_of (concat (render <$> bs))) = bs).
Proof.
  intros H.
  assert (read_lines (text_of (concat (render <$> bs))) = concat (render <$> bs)) as Hr
    by (apply read_lines_text_of, render_one_line, H).
  assert (iter_battles_marked (text_of (concat (render <$> bs))) = bs) as Hm.
  { unfold iter_battles_marked. by rewrite Hr, marked_run_render. }
  split; [done|]. intros Hne. unfold iter_battles.
  destruct bs as [|b bs]; [done|].
  rewrite (line_marker_contains _ START START), (line_marker_contains _ END END);
    [done| |done| |done].
  - rewrite Hr. simpl. right. right. apply in_app_iff. left. apply in_app_iff.
    right. by left.
  - rewrite Hr. by left.
Qed.

Lemma render_roundtrip_witness :
  iter_battles (text_of ["[[[[["; "A vs B"; "|turn|1"; "|win|A"; "]]]]]";
                         "[[[[["; "[[[[["; "]]]]]"])
  = [mkBlock "A vs B" ["|turn|1"; "|win|A"]; mkBlock "[[[[[" []].
Proof.
  apply (render_roundtrip [mkBlock "A vs B" ["|turn|1"; "|win|A"]; mkBlock "[[[[[" []]).
  - repeat constructor; discriminate.
  - discriminate.
Defined.

End segmenter_structure.

(** * Further properties of the selection *)

Section selection_more.

(** The normal form of a matchup key. *)
Lemma isspace_lower c : isspace (lower_char c) = isspace c.
Proof. by destruct c as [[] [] [] [] [] [] [] []]. Qed.

Lemma lower_char_idemp c : lower_char (lower_char c) = lower_char c.
Proof. by destruct c as [[] [] [] [] [] [] [] []]. Qed.

Lemma lower_idemp s : lower (lower s) = lower s.
Proof. induction s as [|c s IH]; simpl; [done|]. by rewrite lower_char_idemp, IH. Qed.

Lemma ltrim_lower s : ltrim isspace (lower s) = lower (ltrim isspace s).
Proof.
  induction s as [|c s IH]; simpl; [done|]. rewrite isspace_lower.
  by destruct (isspace c).
Qed.

Lemma rtrim_lower s : rtrim isspace (lower s) = lower (rtrim isspace s).
Proof.
  induction s as [|c s IH]; simpl; [done|]. rewrite IH, isspace_lower.
  destruct (rtrim isspace s); simpl; [|done]. by destruct (isspace c).
Qed.

Lemma strip_lower s : strip (lower s) = lower (strip s).
Proof. unfold strip, trim. by rewrite ltrim_lower, rtrim_lower. Qed.

Lemma key_normal_form m : lower (strip (lower (strip m))) = lower (strip m).
Proof. by rewrite strip_lower, strip_idemp, lower_idemp. Qed.

(** X7.  A non-negative index selects the block at that position of the
    emitted sequence, and fails with the out-of-range error exactly when
    the sequence is too short. *)
Theorem get_battle_by_index_in_range (f : file) index :
  0 <= index ->
  (forall b, iter_battles f !! Z.to_nat index = Some b ->
             get_battle_by_index f index = inr b)
  /\ (Z.of_nat (length (iter_battles f)) <= index ->
      get_battle_by_index f index = inl (out_of_range index)).
Proof.
  intros H. rewrite get_battle_by_index_lookup by done. split.
  - by intros b ->.
  - intros Hl. rewrite lookup_ge_None_2; [done|lia].
Qed.

Lemma get_battle_by_index_in_range_witness :
  let f := text_of ["[[[[["; "A vs B"; "]]]]]"; "[[[[["; "C vs D"; "|turn|1"; "]]]]]"] in
  get_battle_by_index f 1 = inr (mkBlock "C vs D" ["|turn|1"])
  /\ get_battle_by_index f 2 = inl (IndexError "Battle index 2 out of range.").
Proof.
  intros f. split.
  - apply (proj1 (get_battle_by_index_in_range f 1 ltac:(lia))). reflexivity.
  - apply (proj2 (get_battle_by_index_in_range f 2 ltac:(lia))). vm_compute. discriminate.
Defined.

(** X8.  A block returned by [get_battle_by_matchup] is a block of the
    file whose header matches the key, and the occurrence asked for was not
    negative. *)
Theorem get_battle_by_matchup_sound (f : file) matchup occurrence b :
  get_battle_by_matchup f matchup occurrence = inr b ->
  In b (iter_battles f)
  /\ lower (strip (header b)) = lower (strip matchup)
  /\ 0 <= occurrence.
Proof.
  unfold get_battle_by_matchup. intros H.
  destruct (Z.le_gt_cases 0 occurrence) as [Hocc|Hocc].
  - rewrite matchup_loop_lookup in H by lia.
    destruct (_ !! _) as [b'|] eqn:E; [|done]. injection H as <-.
    apply list_elem_of_lookup_2, list_elem_of_In, List.filter_In in E as [Hin Hm].
    split; [done|]. split; [|done]. by apply String.eqb_eq.
  - by rewrite matchup_loop_past in H by lia.
Qed.

Lemma get_battle_by_matchup_sound_witness :
  lower (strip (header (mkBlock "alder VS ALDER" ["|turn|3"]))) = lower (strip "  ALDER vs alder ").
Proof.
  apply (get_battle_by_matchup_sound
           (text_of ["[[[[["; " Alder vs Alder"; "|turn|1"; "]]]]]";
                     "[[[[["; "alder VS ALDER  "; "|turn|3"; "]]]]]"])
           "  ALDER vs alder " 1).
  reflexivity.
Defined.

(** X9.  Every block can be found again through its own header: asking for
    the header of the block at position [i], at the occurrence that counts
    the matching blocks before it, returns that very block. *)
Theorem matchup_finds_every_block (f : file) (i : nat) b :
  iter_battles f !! i = Some b ->
  get_battle_by_matchup f (header b)
    (Z.of_nat (length (List.filter (header_matches (lower (strip (header b))))
                                   (take i (iter_battles f)))))
  = inr b.
Proof.
  intros Hb. unfold get_battle_by_matchup.
  rewrite matchup_loop_lookup by lia. rewrite Z.sub_0_r, Nat2Z.id.
  set (hm := header_matches (lower (strip (header b)))).
  assert (List.filter hm (iter_battles f) =
          List.filter hm (take i (iter_battles f))
            ++ b :: List.filter hm (drop (S i) (iter_battles f))) as ->.
  { transitivity (List.filter hm (take i (iter_battles f) ++ b :: drop (S i) (iter_battles f))).
    - by rewrite take_drop_middle.
    - rewrite List.filter_app. simpl.
      assert (hm b = true) as -> by apply String.eqb_refl. done. }
  by rewrite list_lookup_middle.
Qed.

Lemma matchup_finds_every_block_witness :
  let f := text_of ["[[[[["; "A vs B"; "|turn|1"; "]]]]]";
                    "[[[[["; "C vs D"; "]]]]]";
                    "[[[[["; "a VS b"; "|turn|9"; "]]]]]"] in
  get_battle_by_matchup f "a VS b" 1 = inr (mkBlock "a VS b" ["|turn|9"]).
Proof.
  intros f.
  apply (matchup_finds_every_block f 2 (mkBlock "a VS b" ["|turn|9"])). reflexivity.
Defined.

(** X10.  Two keys that agree once trimmed and lowered select the same
    block, or both select none; a key and its own normal form are such a
    pair. *)
Theorem matchup_key_insensitive (f : file) m m' occurrence :
  lower (strip m) = lower (strip m') ->
  (forall b, get_battle_by_matchup f m occurrence = inr b
             <-> get_battle_by_matchup f m' occurrence = inr b)
  /\ (forall b, get_battle_by_matchup f m occurrence = inr b
                <-> get_battle_by_matchup f (lower (strip m)) occurrence = inr b).
Proof.
  intros H. unfold get_battle_by_matchup. rewrite key_normal_form, <- H.
  split; intros b; by destruct (matchup_loop _ _ _ _).
Qed.

Lemma matchup_key_insensitive_witness :
  let f := text_of ["[[[[["; "Alder vs Alder"; "|turn|1"; "]]]]]"] in
  get_battle_by_matchup f "alder VS alder  " 0 = inr (mkBlock "Alder vs Alder" ["|turn|1"]).
Proof.
  intros f.
  apply (proj1 (matchup_key_insensitive f "Alder vs Alder" "alder VS alder  " 0 eq_refl)
               (mkBlock "Alder vs Alder" ["|turn|1"])).
  reflexivity.
Defined.

End selection_more.

(** * The matchup listing *)

Section listing.

Lemma counter_incr_get k h counts :
  counter_get h (counter_incr k counts) =
  if String.eqb k h then S (counter_get h counts) else counter_get h counts.
Proof.
  unfold counter_get. induction counts as [|[k' c] counts IH]; simpl.
  - by destruct (String.eqb k h).
  - destruct (String.eqb_spec k' k) as [->|Hne]; simpl.
    + by destruct (String.eqb k h).
    + destruct (String.eqb_spec k' h) as [->|Hne']; [|done].
      by destruct (String.eqb_spec k h) as [->|].
Qed.

Lemma counter_incr_keys k counts k' :
  In k' (counter_incr k counts).*1 <-> k' = k \/ In k' counts.*1.
Proof.
  induction counts as [|[k0 c] counts IH]; csimpl.
  - split; [intros [<-|[]]; by left|intros [->|[]]; by left].
  - destruct (String.eqb_spec k0 k) as [->|Hne]; csimpl.
    + split; [by right|]. intros [->|H]; [by left|done].
    + rewrite IH. split.
      * intros [H|[H|H]]; [right; by left|by left|right; by right].
      * intros [H|[H|H]]; [right; by left|by left|right; by right].
Qed.

Lemma counter_incr_NoDup k counts :
  List.NoDup counts.*1 -> List.NoDup (counter_incr k counts).*1.
Proof.
  induction counts as [|[k0 c] counts IH]; csimpl.
  - intros _. constructor; [by intros []|constructor].
  - intros H. inversion_clear H as [|? ? Hnotin Hnd].
    destruct (String.eqb_spec k0 k) as [->|Hne]; csimpl.
    + by constructor.
    + constructor; [|by apply IH].
      rewrite counter_incr_keys. intros [->|?]; done.
Qed.

Lemma counter_incr_sum k counts :
  sum_list (counter_incr k counts).*2 = S (sum_list counts.*2).
Proof.
  induction counts as [|[k0 c] counts IH]; csimpl; [done|].
  destruct (String.eqb k0 k); csimpl; [done|]. rewrite IH. lia.
Qed.

Lemma tally_fold blocks : forall counts total,
  fold_left (fun st block => (counter_incr (header block) st.1, S st.2)) blocks (counts, total)
  = (fold_left (fun c block => counter_incr (header block) c) blocks counts,
     (total + length blocks)%nat).
Proof.
  induction blocks as [|b blocks IH]; intros counts total; simpl.
  - by rewrite Nat.add_0_r.
  - rewrite IH. f_equal. lia.
Qed.

Lemma tally_counts_from blocks : forall counts,
  let counts' := fold_left (fun c block => counter_incr (header block) c) blocks counts in
  (List.NoDup counts.*1 -> List.NoDup counts'.*1)
  /\ (forall h, counter_get h counts' =
                (counter_get h counts
                 + length (List.filter (fun b => String.eqb (header b) h) blocks))%nat)
  /\ sum_list counts'.*2 = (sum_list counts.*2 + length blocks)%nat
  /\ (forall h, In h counts'.*1 <-> In h counts.*1 \/ exists b, In b blocks /\ header b = h).
Proof.
  induction blocks as [|b blocks IH]; intros counts; simpl.
  - split; [done|]. split; [intros h; lia|]. split; [lia|].
    intros h. split; [by left|]. by intros [?|(? & [] & _)].
  - destruct (IH (counter_incr (header b) counts)) as (H1 & H2 & H3 & H4).
    split; [|split; [|split]].
    + intros Hnd. by apply H1, counter_incr_NoDup.
    + intros h. rewrite H2, counter_incr_get.
      destruct (String.eqb (header b) h); simpl; lia.
    + rewrite H3, counter_incr_sum. lia.
    + intros h. rewrite H4, counter_incr_keys. split.
      * intros [[->|H]|(b' & Hb' & Hh)].
        -- right. exists b. split; [by left|done].
        -- by left.
        -- right. exists b'. split; [by right|done].
      * intros [H|(b' & [<-|Hb'] & Hh)].
        -- left. by right.
        -- left. by left.
        -- right. by exists b'.
Qed.

(** X11.  The tally of [list_matchups]: [total] is the number of blocks;
    every header is a key once, and its count is the number of blocks that
    carry exactly that header, a header that never occurs counting 0; the
    counts add up to the total. *)
Theorem tally_counts (blocks : list BattleBlock) :
  (tally blocks).2 = length blocks
  /\ List.NoDup (tally blocks).1.*1
  /\ (forall h, counter_get h (tally blocks).1
                = length (List.filter (fun b => String.eqb (header b) h) blocks))
  /\ (forall h, In h (tally blocks).1.*1 <-> exists b, In b blocks /\ header b = h)
  /\ sum_list (tally blocks).1.*2 = length blocks.
Proof.
  unfold tally. rewrite tally_fold. simpl.
  destruct (tally_counts_from blocks []) as (H1 & H2 & H3 & H4).
  split; [done|]. split; [apply H1; constructor|]. split; [apply H2|].
  split; [|apply H3]. intros h. rewrite H4. simpl.
  split; [by intros [[]|?]|by right].
Qed.

Lemma insert_desc_perm x l : Permutation (insert_desc x l) (x :: l).
Proof.
  induction l as [|y l IH]; simpl; [done|].
  destruct (y.2 <=? x.2)%nat; [done|]. rewrite IH. apply perm_swap.
Qed.

Lemma sort_desc_perm l : Permutation (sort_desc l) l.
Proof.
  induction l as [|x l IH]; simpl; [done|].
  rewrite insert_desc_perm. by constructor.
Qed.

Lemma insert_desc_sorted x l :
  StronglySorted (fun a b : string * nat => (b.2 <= a.2)%nat) l ->
  StronglySorted (fun a b : string * nat => (b.2 <= a.2)%nat) (insert_desc x l).
Proof.
  induction 1 as [|y l Hs IH Hy]; simpl.
  - by repeat constructor.
  - destruct (Nat.leb_spec y.2 x.2) as [Hle|Hlt].
    + constructor; [by constructor|]. constructor; [done|].
      eapply Forall_impl; [exact Hy|]. simpl. intros z ?. lia.
    + constructor; [done|].
      rewrite insert_desc_perm. constructor; [lia|done].
Qed.

Lemma sort_desc_sorted l :
  StronglySorted (fun a b : string * nat => (b.2 <= a.2)%nat) (sort_desc l).
Proof.
  induction l as [|x l IH]; simpl; [constructor|]. by apply insert_desc_sorted.
Qed.

(** The sort is stable: items of equal count keep their order. *)
Lemma insert_desc_stable c x l :
  List.filter (fun y : string * nat => (y.2 =? c)%nat) (insert_desc x l)
  = List.filter (fun y : string * nat => (y.2 =? c)%nat) (x :: l).
Proof.
  induction l as [|y l IH]; [done|].
  cbn [insert_desc]. destruct (Nat.leb_spec y.2 x.2) as [Hle|Hlt]; [done|].
  cbn [List.filter] in *. rewrite IH.
  destruct (Nat.eqb_spec x.2 c) as [Hx|Hx]; [|done].
  destruct (Nat.eqb_spec y.2 c) as [Hy|Hy]; [lia|done].
Qed.

Lemma sort_desc_stable c l :
  List.filter (fun y : string * nat => (y.2 =? c)%nat) (sort_desc l)
  = List.filter (fun y : string * nat => (y.2 =? c)%nat) l.
Proof.
  induction l as [|x l IH]; [done|].
  cbn [sort_desc fold_right]. fold (sort_desc l). rewrite insert_desc_stable.
  cbn [List.filter]. by rewrite IH.
Qed.

(** X12.  [most_common n] returns [n] items, or all of them when there are
    fewer, in order of non-increasing count; what it leaves out counts no
    more than anything it returns; and among items of one count it returns
    the earliest keys, in their first-seen order. *)
Theorem most_common_top (n : Z) (counts : list (string * nat)) :
  length (most_common n counts) = Nat.min (Z.to_nat n) (length counts)
  /\ StronglySorted (fun a b : string * nat => (b.2 <= a.2)%nat) (most_common n counts)
  /\ (exists rest,
        Permutation counts (most_common n counts ++ rest)
        /\ forall x y, In x rest -> In y (most_common n counts) -> (x.2 <= y.2)%nat)
  /\ (forall c,
        List.filter (fun y : string * nat => (y.2 =? c)%nat) (most_common n counts)
        `prefix_of` List.filter (fun y : string * nat => (y.2 =? c)%nat) counts).
Proof.
  assert (most_common n counts = take (Z.to_nat n) (sort_desc counts)) as ->.
  { unfold most_common. destruct (Z.leb_spec n 0); [|done].
    by replace (Z.to_nat n) with 0%nat by lia. }
  pose proof (sort_desc_sorted counts) as Hs.
  pose proof (sort_desc_perm counts) as Hp.
  rewrite <- (take_drop (Z.to_nat n) (sort_desc counts)) in Hs.
  split; [|split; [|split]].
  - rewrite length_take. by rewrite (Permutation_length Hp).
  - by apply StronglySorted_app_1_l in Hs.
  - exists (drop (Z.to_nat n) (sort_desc counts)). split.
    + by rewrite take_drop.
    + intros x y Hx Hy.
      apply (StronglySorted_app_1_elem_of _ _ _ y x Hs); by apply list_elem_of_In.
  - intros c. rewrite <- (sort_desc_stable c counts).
    exists (List.filter (fun y : string * nat => (y.2 =? c)%nat)
              (drop (Z.to_nat n) (sort_desc counts))).
    by rewrite <- List.filter_app, take_drop.
Qed.

End listing.

(** * Room identifiers *)

Section roomid.

Lemma str_take_length n s : String.length (str_take n s) = Nat.min n (String.length s).
Proof.
  revert s. induction n as [|n IH]; intros [|c s]; simpl; [done..|]. by rewrite IH.
Qed.

Lemma str_take_all n s : (String.length s <= n)%nat -> str_take n s = s.
Proof.
  revert s. induction n as [|n IH]; intros [|c s]; simpl; [done|lia|done|].
  intros H. rewrite IH; [done|lia].
Qed.

Lemma str_take_all_chars p n s :
  all_chars p s = true -> all_chars p (str_take n s) = true.
Proof.
  revert s. induction n as [|n IH]; intros [|c s]; simpl; [done..|].
  intros H. apply andb_true_iff in H as [-> H]. by apply IH.
Qed.

Lemma strip_non_alnum_all s : all_chars is_lower_alnum (strip_non_alnum s) = true.
Proof.
  induction s as [|c s IH]; simpl; [done|].
  destruct (is_lower_alnum c) eqn:E; simpl; [|done]. by rewrite E.
Qed.

Lemma strip_non_alnum_id s :
  all_chars is_lower_alnum s = true -> strip_non_alnum s = s.
Proof.
  induction s as [|c s IH]; simpl; [done|].
  intros H. apply andb_true_iff in H as [-> H]. by rewrite IH.
Qed.

Lemma lower_alnum_lower c : is_lower_alnum c = true -> lower_char c = c.
Proof. by destruct c as [[] [] [] [] [] [] [] []]. Qed.

Lemma lower_alnum_not_space c : is_lower_alnum c = true -> isspace c = false.
Proof. by destruct c as [[] [] [] [] [] [] [] []]. Qed.

Lemma lower_id s : all_chars is_lower_alnum s = true -> lower s = s.
Proof.
  induction s as [|c s IH]; simpl; [done|].
  intros H. apply andb_true_iff in H as [Hc H].
  by rewrite (lower_alnum_lower c Hc), IH.
Qed.

Lemma rtrim_no_space sp s : all_chars (fun c => negb (sp c)) s = true -> rtrim sp s = s.
Proof.
  induction s as [|c s IH]; simpl; [done|].
  intros H. apply andb_true_iff in H as [Hc H]. rewrite IH by done.
  apply negb_true_iff in Hc. rewrite Hc. by destruct s.
Qed.

Lemma strip_no_space s : all_chars (fun c => negb (isspace c)) s = true -> strip s = s.
Proof.
  intros H. unfold strip, trim.
  assert (ltrim isspace s = s) as ->.
  { destruct s as [|c s]; [done|]. simpl in *.
    apply andb_true_iff in H as [Hc _]. apply negb_true_iff in Hc. by rewrite Hc. }
  by apply rtrim_no_space.
Qed.

Lemma all_chars_impl (p q : ascii -> bool) s :
  (forall c, p c = true -> q c = true) -> all_chars p s = true -> all_chars q s = true.
Proof.
  intros Hpq. induction s as [|c s IH]; simpl; [done|].
  intros H. apply andb_true_iff in H as [Hc H]. by rewrite (Hpq c Hc), IH.
Qed.

Lemma strip_alnum s : all_chars is_lower_alnum s = true -> strip s = s.
Proof.
  intros H. apply strip_no_space. eapply all_chars_impl; [|exact H].
  intros c Hc. by rewrite (lower_alnum_not_space c Hc).
Qed.

Lemma sanitize_roomid_facts (s fallback : string) :
  (String.length (sanitize_roomid s fallback) <= 64)%nat
  /\ (fallback <> EmptyString -> sanitize_roomid s fallback <> EmptyString)
  /\ (all_chars is_lower_alnum fallback = true ->
      all_chars is_lower_alnum (sanitize_roomid s fallback) = true).
Proof.
  unfold sanitize_roomid. split; [rewrite str_take_length; lia|]. split.
  - intros Hf. destruct (strip_non_alnum (lower (strip s))) as [|c r]; simpl.
    + by destruct fallback.
    + done.
  - intros Hf. apply str_take_all_chars.
    destruct (truthy _) eqn:E; [apply strip_non_alnum_all|done].
Qed.

(** X13.  A room identifier is at most 64 characters long; it is not empty
    unless the fallback is; and with a fallback over [a-z0-9] it holds
    nothing but characters of [a-z0-9]. *)
Theorem sanitize_roomid_shape (s fallback : string) :
  (String.length (sanitize_roomid s fallback) <= 64)%nat
  /\ (fallback <> EmptyString -> sanitize_roomid s fallback <> EmptyString)
  /\ (all_chars is_lower_alnum fallback = true ->
      all_chars is_lower_alnum (sanitize_roomid s fallback) = true).
Proof. apply sanitize_roomid_facts. Qed.

Lemma sanitize_roomid_shape_witness :
  sanitize_roomid "  --  " "sim" <> EmptyString
  /\ all_chars is_lower_alnum (sanitize_roomid "Alder vs. ALDER-2" "sim") = true.
Proof.
  split.
  - apply (proj1 (proj2 (sanitize_roomid_shape "  --  " "sim"))). discriminate.
  - apply (proj2 (proj2 (sanitize_roomid_shape "Alder vs. ALDER-2" "sim"))). reflexivity.
Defined.

(** X14.  Sanitizing is idempotent: with a non-empty fallback over
    [a-z0-9], a room identifier sanitizes to itself, whatever fallback the
    second call is given. *)
Theorem sanitize_roomid_idemp (s fallback fallback' : string) :
  fallback <> EmptyString -> all_chars is_lower_alnum fallback = true ->
  sanitize_roomid (sanitize_roomid s fallback) fallback' = sanitize_roomid s fallback.
Proof.
  intros Hne Hf.
  destruct (sanitize_roomid_facts s fallback) as (Hlen & Hnz & Hal).
  specialize (Hnz Hne). specialize (Hal Hf).
  set (r := sanitize_roomid s fallback) in *.
  unfold sanitize_roomid at 1.
  rewrite (strip_alnum r Hal), (lower_id r Hal), (strip_non_alnum_id r Hal).
  apply truthy_nonempty in Hnz. rewrite Hnz. by apply str_take_all.
Qed.

Lemma sanitize_roomid_idemp_witness :
  sanitize_roomid (sanitize_roomid "Alder vs. ALDER-2" "sim") "x" = "aldervsalder2".
Proof.
  rewrite (sanitize_roomid_idemp "Alder vs. ALDER-2" "sim" "x"); [reflexivity| |reflexivity].
  discriminate.
Defined.

End roomid.

(** * Further properties of the rewriter *)

Section rewriter_more.

Lemma p2_not_p1 ln : is_p2 ln = true -> is_p1 ln = false.
Proof.
  intros H. destruct (is_p1 ln) eqn:E; [|done]. by rewrite (p1_not_p2 ln E) in H.
Qed.

Lemma given_decide (v : option string) : bool_decide (v <> None) = given v.
Proof.
  destruct v; unfold given.
  - by apply bool_decide_eq_true_2.
  - apply bool_decide_eq_false_2. by intros H.
Qed.

Lemma clean_free v : clean v -> free_opt v.
Proof. destruct v; simpl; [by intros [_ ?]|done]. Qed.

Section shapes.
Variables a b c d : option string.
Let rw := rewrite_line a b c d.

Lemma rewrite_line_p1 ln : is_p1 (rw ln) = is_p1 ln.
Proof.
  unfold rw, rewrite_line.
  destruct (is_p1 ln) eqn:E1; [|destruct (is_p2 ln) eqn:E2]; [| |done].
  - by apply (fix_player_line_shape "p1").
  - apply p2_not_p1. by apply (fix_player_line_shape "p2").
Qed.

Lemma rewrite_line_p2 ln : is_p2 (rw ln) = is_p2 ln.
Proof.
  unfold rw, rewrite_line.
  destruct (is_p1 ln) eqn:E1; [|destruct (is_p2 ln) eqn:E2]; [| |done].
  - rewrite (p1_not_p2 ln E1). apply p1_not_p2. by apply (fix_player_line_shape "p1").
  - by apply (fix_player_line_shape "p2").
Qed.

Lemma rewrite_line_plain ln : is_player ln = false -> rw ln = ln.
Proof.
  unfold is_player, rw, rewrite_line. intros H.
  apply orb_false_iff in H as [-> ->]. done.
Qed.

Lemma filter_rewritten (p : string -> bool) lines :
  (forall ln, p (rw ln) = p ln) ->
  length (List.filter p (map rw lines)) = length (List.filter p lines).
Proof.
  intros Hp. induction lines as [|x l IH]; simpl; [done|].
  rewrite Hp. destruct (p x); simpl; by rewrite IH.
Qed.

Lemma existsb_rewritten (p : string -> bool) lines :
  (forall ln, p (rw ln) = p ln) -> existsb p (map rw lines) = existsb p lines.
Proof.
  intros Hp. induction lines as [|x l IH]; simpl; [done|]. by rewrite Hp, IH.
Qed.

Lemma filter_other_rewritten lines :
  List.filter (fun ln => negb (is_player ln)) (map rw lines)
  = List.filter (fun ln => negb (is_player ln)) lines.
Proof.
  induction lines as [|x l IH]; simpl; [done|].
  unfold is_player at 1. rewrite rewrite_line_p1, rewrite_line_p2.
  fold (is_player x). destruct (is_player x) eqn:E; simpl; [done|].
  by rewrite rewrite_line_plain, IH.
Qed.
End shapes.

Lemma filter_insert_skip {A} (p : A -> bool) k x l :
  p x = false -> List.filter p (list_insert_at k x l) = List.filter p l.
Proof.
  intros H. unfold list_insert_at. rewrite List.filter_app. simpl. rewrite H.
  by rewrite <- List.filter_app, take_drop.
Qed.

Lemma filter_insert_keep {A} (p : A -> bool) k x l :
  p x = true ->
  length (List.filter p (list_insert_at k x l)) = S (length (List.filter p l)).
Proof.
  intros H. unfold list_insert_at. rewrite List.filter_app. simpl. rewrite H.
  rewrite <- (take_drop k l) at 3. rewrite List.filter_app, !length_app. simpl. lia.
Qed.

Lemma length_insert_at {A} k (x : A) l : length (list_insert_at k x l) = S (length l).
Proof.
  unfold list_insert_at. rewrite length_app. simpl.
  rewrite <- (take_drop k l) at 3. rewrite length_app. lia.
Qed.

Lemma existsb_insert_at {A} (p : A -> bool) k x l :
  existsb p (list_insert_at k x l) = p x || existsb p l.
Proof.
  unfold list_insert_at. rewrite existsb_app. simpl.
  rewrite <- (take_drop k l) at 3. rewrite existsb_app.
  by destruct (existsb p (take k l)), (p x).
Qed.

Lemma map_insert_at {A} (g : A -> A) k x l :
  map g (list_insert_at k x l) = list_insert_at k (g x) (map g l).
Proof.
  unfold list_insert_at. rewrite List.map_app. simpl.
  by rewrite List.firstn_map, List.skipn_map.
Qed.

(** X15.  Whatever overrides are supplied, the lines that are no player
    lines come out untouched and in their order. *)
Theorem override_players_frame a b c d lines :
  List.filter (fun ln => negb (is_player ln)) (override_players a b c d lines)
  = List.filter (fun ln => negb (is_player ln)) lines.
Proof.
  rewrite override_players_eq. cbv zeta.
  assert (negb (is_player (synth_player "p1" a c)) = false) as H1.
  { unfold is_player. by rewrite synth_player_p1. }
  assert (negb (is_player (synth_player "p2" b d)) = false) as H2.
  { unfold is_player. by rewrite synth_player_p2, orb_true_r. }
  destruct (_ && _); destruct (_ && _);
    rewrite ?filter_insert_skip by done; apply filter_other_rewritten.
Qed.

(** X16.  A player line is put in for a side exactly when the input has
    none for that side and a name or an avatar is supplied for it; no
    other line is added and none is dropped or doubled. *)
Theorem override_players_inserts a b c d lines :
  let ins1 := if negb (existsb is_p1 lines) && (given a || given c) then 1%nat else 0%nat in
  let ins2 := if negb (existsb is_p2 lines) && (given b || given d) then 1%nat else 0%nat in
  let out := override_players a b c d lines in
  length out = (length lines + ins1 + ins2)%nat
  /\ length (List.filter is_p1 out) = (length (List.filter is_p1 lines) + ins1)%nat
  /\ length (List.filter is_p2 out) = (length (List.filter is_p2 lines) + ins2)%nat.
Proof.
  cbv zeta. rewrite override_players_eq. cbv zeta. rewrite !given_decide.
  pose proof (synth_player_p1 a c) as H11.
  pose proof (p1_not_p2 _ H11) as H12.
  pose proof (synth_player_p2 b d) as H22.
  pose proof (p2_not_p1 _ H22) as H21.
  pose proof (filter_rewritten a b c d is_p1 lines (rewrite_line_p1 a b c d)) as F1.
  pose proof (filter_rewritten a b c d is_p2 lines (rewrite_line_p2 a b c d)) as F2.
  destruct (_ && _); destruct (_ && _);
    rewrite ?length_insert_at, ?filter_insert_skip, ?filter_insert_keep,
            ?filter_insert_skip, ?length_map, ?F1, ?F2 by done;
    repeat split; lia.
Qed.

(** X17.  With no override at all, player lines of six fields or more come
    out as they went in: the whole sequence is returned unchanged. *)
Theorem override_players_nothing lines :
  Forall (fun ln => is_player ln = true -> (6 <= length (split PIPE ln))%nat) lines ->
  override_players None None None None lines = lines.
Proof.
  intros H. rewrite override_players_eq. cbv zeta. rewrite !given_decide. simpl.
  rewrite !andb_false_r.
  induction H as [|x l Hx _ IH]; simpl; [done|]. rewrite IH. f_equal.
  unfold rewrite_line, is_player in *.
  destruct (is_p1 x); [apply fix_player_line_id; by apply Hx|].
  destruct (is_p2 x); [apply fix_player_line_id; by apply Hx|done].
Qed.

Lemma override_players_nothing_witness :
  override_players None None None None
    ["|player|p1|Ann|3|"; "|player|p2|Bo|7|1200"; "|start|"; "|turn|1"]
  = ["|player|p1|Ann|3|"; "|player|p2|Bo|7|1200"; "|start|"; "|turn|1"].
Proof.
  apply (override_players_nothing
           ["|player|p1|Ann|3|"; "|player|p2|Bo|7|1200"; "|start|"; "|turn|1"]).
  repeat constructor; simpl; intros; try lia; discriminate.
Defined.

End rewriter_more.

Section rewriter_twice.

Lemma set_field_twice name avatar parts :
  set_field 4 avatar (set_field 3 name (set_field 4 avatar (set_field 3 name parts)))
  = set_field 4 avatar (set_field 3 name parts).
Proof.
  destruct name as [n|], avatar as [v|]; simpl; [|apply list_insert_insert_eq..|done].
  rewrite (list_insert_insert_ne _ 3 4) by done.
  by rewrite !list_insert_insert_eq.
Qed.

Lemma set_field_length i v parts : length (set_field i v parts) = length parts.
Proof. destruct v; simpl; [apply length_insert|done]. Qed.

(** Rewriting a player line a second time with the same values changes
    nothing more. *)
Lemma fix_player_line_idemp ln name avatar :
  free_opt name -> free_opt avatar ->
  fix_player_line (fix_player_line ln name avatar) name avatar
  = fix_player_line ln name avatar.
Proof.
  intros Hn Ha. rewrite (fix_player_line_eq (fix_player_line _ _ _)).
  rewrite fix_player_line_fields by done.
  rewrite pad6_id.
  - by rewrite set_field_twice.
  - rewrite !set_field_length. apply pad6_length.
Qed.

Lemma or_else_free v dflt :
  free_opt v -> free_of PIPE dflt = true -> free_of PIPE (or_else v dflt) = true.
Proof. destruct v as [x|]; simpl; [|done]. intros ? ?. by destruct (truthy x). Qed.

Lemma synth_player_fields side name avatar :
  free_of PIPE side = true -> free_opt name -> free_opt avatar ->
  split PIPE (synth_player side name avatar)
  = [EmptyString; "player"; side; or_else name side; or_else avatar "1"; EmptyString].
Proof.
  intros Hs Hn Ha.
  change (synth_player side name avatar)
    with (join "|" [EmptyString; "player"; side; or_else name side;
                    or_else avatar "1"; EmptyString]).
  apply split_join; [done|].
  repeat constructor; try done; by apply or_else_free.
Qed.

(** A synthesized line is left alone by the rewrite that made it. *)
Lemma synth_player_fixed side name avatar :
  free_of PIPE side = true -> clean name -> clean avatar ->
  fix_player_line (synth_player side name avatar) name avatar
  = synth_player side name avatar.
Proof.
  intros Hs Hn Ha. rewrite fix_player_line_eq.
  rewrite synth_player_fields by (done || by apply clean_free).
  change (synth_player side name avatar)
    with (join "|" [EmptyString; "player"; side; or_else name side;
                    or_else avatar "1"; EmptyString]).
  f_equal. unfold pad6. simpl.
  destruct name as [n|], avatar as [v|]; simpl in *;
    repeat match goal with
           | H : _ <> EmptyString /\ _ |- _ =>
               let H1 := fresh in destruct H as [H1 _];
               apply truthy_nonempty in H1; rewrite H1
           end; done.
Qed.

Section twice.
Variables a b c d : option string.
Hypothesis (Ha : clean a) (Hb : clean b) (Hc : clean c) (Hd : clean d).
Let rw := rewrite_line a b c d.

Lemma rewrite_line_idemp ln : rw (rw ln) = rw ln.
Proof.
  pose proof (rewrite_line_p1 a b c d ln) as H1.
  pose proof (rewrite_line_p2 a b c d ln) as H2.
  unfold rw in *. unfold rewrite_line at 1. rewrite H1, H2.
  unfold rewrite_line.
  destruct (is_p1 ln); [by apply fix_player_line_idemp; apply clean_free|].
  destruct (is_p2 ln); [by apply fix_player_line_idemp; apply clean_free|done].
Qed.

Lemma rewrite_synth_p1 : rw (synth_player "p1" a c) = synth_player "p1" a c.
Proof.
  unfold rw, rewrite_line. rewrite synth_player_p1. by apply synth_player_fixed.
Qed.

Lemma rewrite_synth_p2 : rw (synth_player "p2" b d) = synth_player "p2" b d.
Proof.
  unfold rw, rewrite_line.
  rewrite (p2_not_p1 _ (synth_player_p2 b d)), synth_player_p2.
  by apply synth_player_fixed.
Qed.

Lemma override_players_fixed X :
  map rw X = X ->
  (given a || given c = true -> existsb is_p1 X = true) ->
  (given b || given d = true -> existsb is_p2 X = true) ->
  override_players a b c d X = X.
Proof.
  intros Hm H1 H2. rewrite override_players_eq. cbv zeta. fold rw.
  rewrite !given_decide, Hm.
  destruct (given a || given c); [rewrite H1 by done|rewrite andb_false_r];
    (destruct (given b || given d); [rewrite H2 by done|rewrite andb_false_r]); done.
Qed.

(** X18.  With override values that fit in one field (not empty, no pipe),
    applying the same overrides a second time changes nothing: the player
    lines written or put in by the first pass are found and kept by the
    second. *)
Theorem override_players_idemp lines :
  override_players a b c d (override_players a b c d lines)
  = override_players a b c d lines.
Proof.
  apply override_players_fixed.
  - rewrite override_players_eq. cbv zeta. fold rw.
    assert (map rw (map rw lines) = map rw lines) as Hmm.
    { rewrite List.map_map. apply List.map_ext. intros ln. apply rewrite_line_idemp. }
    destruct (_ && _); destruct (_ && _);
      by rewrite ?map_insert_at, ?rewrite_synth_p1, ?rewrite_synth_p2, Hmm.
  - intros G. rewrite override_players_eq. cbv zeta. fold rw.
    rewrite !given_decide, G.
    pose proof (existsb_rewritten a b c d is_p1 lines (rewrite_line_p1 a b c d)) as E.
    fold rw in E.
    destruct (existsb is_p1 lines); simpl;
      destruct (_ && _); by rewrite ?existsb_insert_at, ?synth_player_p1, ?E, ?orb_true_r.
  - intros G. rewrite override_players_eq. cbv zeta. fold rw.
    rewrite !given_decide, G.
    pose proof (existsb_rewritten a b c d is_p2 lines (rewrite_line_p2 a b c d)) as E.
    fold rw in E.
    destruct (existsb is_p2 lines); simpl;
      destruct (_ && _); by rewrite ?existsb_insert_at, ?synth_player_p2, ?E, ?orb_true_r.
Qed.
End twice.

Lemma override_players_idemp_witness :
  override_players (Some "Ann") None None (Some "7")
    (override_players (Some "Ann") None None (Some "7") ["|player|p1|x"; "|start|"])
  = ["|player|p1|Ann||"; "|player|p2|p2|7|"; "|start|"].
Proof.
  rewrite (override_players_idemp (Some "Ann") None None (Some "7"));
    [reflexivity|..]; simpl; try done; by split.
Defined.

End rewriter_twice.

(** * Rewriting, then building the record *)

Section builder_more.

Lemma last_match_fixed sel lines n :
  Forall (fun ln => sel ln = None \/ sel ln = Some n) lines ->
  last_match sel lines n = n.
Proof.
  induction 1 as [|x l [Hx|Hx] _ IH]; [done|..];
    by rewrite last_match_cons, Hx.
Qed.

Lemma last_match_only sel lines n dflt :
  Forall (fun ln => sel ln = None \/ sel ln = Some n) lines ->
  Exists (fun ln => sel ln = Some n) lines ->
  last_match sel lines dflt = n.
Proof.
  intros Hall Hex. revert dflt.
  induction Hall as [|x l Hx Hl IH]; intros dflt; [by inversion Hex|].
  rewrite last_match_cons. destruct Hx as [Hx|Hx]; rewrite Hx; simpl.
  - apply IH. inversion Hex as [? ? Hx'|]; [congruence|done].
  - by apply last_match_fixed.
Qed.

Lemma last_match_not_empty sel lines dflt :
  (forall ln x, sel ln = Some x -> x <> EmptyString) ->
  dflt <> EmptyString -> last_match sel lines dflt <> EmptyString.
Proof.
  intros Hsel. revert dflt. induction lines as [|x l IH]; intros dflt Hd; [done|].
  rewrite last_match_cons. apply IH.
  destruct (sel x) as [v|] eqn:E; simpl; [by apply (Hsel x)|done].
Qed.

Lemma field_not_empty i ln x : field i ln = Some x -> x <> EmptyString.
Proof.
  unfold field. destruct (_ !! _) as [y|]; [|done].
  destruct (truthy y) eqn:E; [|done]. intros [= <-]. by apply truthy_nonempty.
Qed.

(** X19.  The names and the format of a record are never empty. *)
Theorem record_fields_not_empty now lines room full :
  p1 (build_replay_object now lines room full) <> EmptyString
  /\ p2 (build_replay_object now lines room full) <> EmptyString
  /\ format (build_replay_object now lines room full) <> EmptyString.
Proof.
  unfold build_replay_object. rewrite scan_fold. simpl.
  repeat split; apply last_match_not_empty; try done;
    intros ln x; unfold sel_p1, sel_p2, sel_fmt;
    destruct (_ : bool); try done; apply field_not_empty.
Qed.

Lemma scan_step_unscanned st ln : is_scanned ln = false -> scan_step st ln = st.
Proof.
  unfold is_scanned, scan_step, is_p1, is_p2. intros H.
  apply orb_false_iff in H as [H H4]. apply orb_false_iff in H as [H H3].
  apply orb_false_iff in H as [H1 H2]. rewrite H1, H2, H3, H4.
  by rewrite andb_false_r.
Qed.

Lemma scan_fold_scanned lines : forall st,
  fold_left scan_step (List.filter is_scanned lines) st = fold_left scan_step lines st.
Proof.
  induction lines as [|x l IH]; intros st; simpl; [done|].
  destruct (is_scanned x) eqn:E; simpl; [done|].
  by rewrite (scan_step_unscanned st x E).
Qed.

(** X20.  The names, the format and the timestamp of a record depend only
    on the player, tier and time lines: every other line can be removed
    without changing them. *)
Theorem record_ignores_other_lines now lines room full :
  let r := build_replay_object now lines room full in
  let r' := build_replay_object now (List.filter is_scanned lines) room full in
  p1 r' = p1 r /\ p2 r' = p2 r /\ format r' = format r /\ timestamp r' = timestamp r.
Proof.
  cbv zeta. unfold build_replay_object. rewrite scan_fold_scanned. by simpl.
Qed.

Lemma field_fixed_name ln n avatar :
  n <> EmptyString -> free_of PIPE n = true -> free_opt avatar ->
  field 3 (fix_player_line ln (Some n) avatar) = Some n.
Proof.
  intros Hne Hf Ha. unfold field. rewrite fix_player_line_fields by done.
  assert (set_field 4 avatar (set_field 3 (Some n) (pad6 (split PIPE ln))) !! 3%nat
          = Some n) as ->.
  { pose proof (pad6_length (split PIPE ln)) as Hl.
    destruct avatar; simpl; rewrite ?list_lookup_insert_ne by done;
      apply list_lookup_insert_eq; lia. }
  apply truthy_nonempty in Hne. by rewrite Hne.
Qed.

Lemma field_synth_name side n avatar :
  free_of PIPE side = true ->
  n <> EmptyString -> free_of PIPE n = true -> free_opt avatar ->
  field 3 (synth_player side (Some n) avatar) = Some n.
Proof.
  intros Hs Hne Hf Ha. unfold field. rewrite synth_player_fields by done.
  apply truthy_nonempty in Hne. simpl. rewrite Hne. simpl. by rewrite Hne.
Qed.

Lemma Forall_insert_at {A} (P : A -> Prop) k x l :
  P x -> Forall P l -> Forall P (list_insert_at k x l).
Proof.
  intros Hx Hl. unfold list_insert_at. apply Forall_app. split.
  - by apply Forall_take.
  - constructor; [done|]. by apply Forall_drop.
Qed.

Lemma Exists_insert_at {A} (P : A -> Prop) k x l :
  P x \/ Exists P l -> Exists P (list_insert_at k x l).
Proof.
  unfold list_insert_at. intros [Hx|Hl].
  - apply Exists_app. right. by constructor.
  - rewrite <- (take_drop k l) in Hl. apply Exists_app in Hl as [Hl|Hl].
    + apply Exists_app. by left.
    + apply Exists_app. right. by apply Exists_cons_tl.
Qed.

Lemma existsb_Exists (p : string -> bool) (P : string -> Prop) g lines :
  (forall ln, p ln = true -> P (g ln)) ->
  existsb p lines = true -> Exists P (map g lines).
Proof.
  intros Hp. induction lines as [|x l IH]; simpl; [done|].
  intros H. apply orb_true_iff in H as [H|H].
  - apply Exists_cons_hd. by apply Hp.
  - apply Exists_cons_tl. by apply IH.
Qed.

Section sides.
Variable n : string.
Hypothesis (Hne : n <> EmptyString) (Hfree : free_of PIPE n = true).

Lemma override_offers_p1 b c d lines :
  free_opt c ->
  let out := override_players (Some n) b c d lines in
  Forall (fun ln => sel_p1 ln = None \/ sel_p1 ln = Some n) out
  /\ Exists (fun ln => sel_p1 ln = Some n) out.
Proof.
  intros Hc. cbv zeta. rewrite override_players_eq. cbv zeta. rewrite !given_decide.
  simpl given. rewrite orb_true_l, andb_true_r.
  set (rw := rewrite_line (Some n) b c d).
  assert (forall ln, is_p1 ln = true -> sel_p1 (rw ln) = Some n) as Hrw1.
  { intros ln H. unfold sel_p1. unfold rw at 1. rewrite rewrite_line_p1, H.
    unfold rw, rewrite_line. rewrite H. by apply field_fixed_name. }
  assert (Forall (fun ln => sel_p1 ln = None \/ sel_p1 ln = Some n) (map rw lines)) as H0.
  { apply List.Forall_map, List.Forall_forall. intros ln _.
    destruct (is_p1 ln) eqn:E; [right; by apply Hrw1|].
    left. unfold sel_p1. unfold rw. by rewrite rewrite_line_p1, E. }
  assert (sel_p1 (synth_player "p1" (Some n) c) = Some n) as Hs1.
  { unfold sel_p1. rewrite synth_player_p1. by apply field_synth_name. }
  assert (sel_p1 (synth_player "p2" b d) = None) as Hs2.
  { unfold sel_p1. by rewrite (p2_not_p1 _ (synth_player_p2 b d)). }
  assert (existsb is_p1 lines = true ->
          Exists (fun ln => sel_p1 ln = Some n) (map rw lines)) as Hex
    by (by apply existsb_Exists).
  destruct (existsb is_p1 lines); simpl; destruct (_ && _); split;
    repeat (apply Forall_insert_at; [by auto|]); try done;
    repeat (apply Exists_insert_at; first [by left|right]); by auto.
Qed.

Lemma override_offers_p2 a c d lines :
  free_opt d ->
  let out := override_players a (Some n) c d lines in
  Forall (fun ln => sel_p2 ln = None \/ sel_p2 ln = Some n) out
  /\ Exists (fun ln => sel_p2 ln = Some n) out.
Proof.
  intros Hd. cbv zeta. rewrite override_players_eq. cbv zeta. rewrite !given_decide.
  simpl given. rewrite orb_true_l, andb_true_r.
  set (rw := rewrite_line a (Some n) c d).
  assert (forall ln, is_p2 ln = true -> sel_p2 (rw ln) = Some n) as Hrw2.
  { intros ln H. unfold sel_p2. unfold rw at 1. rewrite rewrite_line_p2, H.
    unfold rw, rewrite_line. rewrite (p2_not_p1 ln H), H. by apply field_fixed_name. }
  assert (Forall (fun ln => sel_p2 ln = None \/ sel_p2 ln = Some n) (map rw lines)) as H0.
  { apply List.Forall_map, List.Forall_forall. intros ln _.
    destruct (is_p2 ln) eqn:E; [right; by apply Hrw2|].
    left. unfold sel_p2. unfold rw. by rewrite rewrite_line_p2, E. }
  assert (sel_p2 (synth_player "p2" (Some n) d) = Some n) as Hs2.
  { unfold sel_p2. rewrite synth_player_p2. by apply field_synth_name. }
  assert (sel_p2 (synth_player "p1" a c) = None) as Hs1.
  { unfold sel_p2. by rewrite (p1_not_p2 _ (synth_player_p1 a c)). }
  assert (existsb is_p2 lines = true ->
          Exists (fun ln => sel_p2 ln = Some n) (map rw lines)) as Hex
    by (by apply existsb_Exists).
  destruct (existsb is_p2 lines); simpl; destruct (_ && _); split;
    repeat (apply Forall_insert_at; [by auto|]); try done;
    repeat (apply Exists_insert_at; first [by left|right]); by auto.
Qed.

(** X21.  A name override that fits in one field (not empty, no pipe) is
    the name the record reports for that side, whatever the protocol lines
    said: rewriting and then building agree. *)
Theorem override_then_build now lines room full :
  (forall b c d, free_opt c ->
     p1 (build_replay_object now (override_players (Some n) b c d lines) room full) = n)
  /\ (forall a c d, free_opt d ->
     p2 (build_replay_object now (override_players a (Some n) c d lines) room full) = n).
Proof.
  split.
  - intros b c d Hc. unfold build_replay_object. rewrite scan_fold. simpl.
    destruct (override_offers_p1 b c d lines Hc) as [Hall Hex].
    by apply last_match_only.
  - intros a c d Hd. unfold build_replay_object. rewrite scan_fold. simpl.
    destruct (override_offers_p2 a c d lines Hd) as [Hall Hex].
    by apply last_match_only.
Qed.
End sides.

Lemma override_then_build_witness :
  p1 (build_replay_object 0
        (override_players (Some "Ann") None None None
           ["|player|p1|x|3|"; "|start|"; "|player|p1|y|4|"]) "sim" false) = "Ann".
Proof.
  apply (proj1 (override_then_build "Ann" ltac:(discriminate) eq_refl 0
                  ["|player|p1|x|3|"; "|start|"; "|player|p1|y|4|"] "sim" false)).
  exact I.
Defined.

End builder_more.

(** * The command line driver *)

Section driver.

Lemma index_loop_some index blocks : forall i b,
  index_loop index i blocks = Some b -> In b blocks.
Proof.
  induction blocks as [|x blocks IH]; intros i b; simpl; [done|].
  destruct (i =? index); [intros [= <-]; by left|]. intros H. right. by apply (IH _ _ H).
Qed.

Lemma matchup_loop_some target occurrence blocks : forall hits b,
  matchup_loop target occurrence hits blocks = Some b -> In b blocks.
Proof.
  induction blocks as [|x blocks IH]; intros hits b; simpl; [done|].
  destruct (String.eqb _ _).
  - destruct (hits =? occurrence); [intros [= <-]; by left|].
    intros H. right. by apply (IH _ _ H).
  - intros H. right. by apply (IH _ _ H).
Qed.

(** X22.  Whenever [main] builds a replay object, the block it was built
    from is a block of the input file, and the room identifier is at most
    64 characters long, not empty, and made of [a-z0-9] only. *)
Theorem main_built args path (f : file) now block replay :
  main args path (Some f) now = Built block replay ->
  In block (iter_battles f)
  /\ (String.length (roomid replay) <= 64)%nat
  /\ roomid replay <> EmptyString
  /\ all_chars is_lower_alnum (roomid replay) = true.
Proof.
  unfold main. destruct (arg_list_matchups args); [done|].
  destruct (arg_matchup args) as [m|]; simpl.
  - unfold get_battle_by_matchup.
    destruct (matchup_loop _ _ _ _) as [b|] eqn:E; [|done].
    intros [= <- <-]. simpl. split; [by apply matchup_loop_some in E|].
    destruct (sanitize_roomid_facts (m +:+ "-" +:+ str_of_int (arg_occurrence args)) "sim")
      as (H1 & H2 & H3).
    split; [done|]. split; [by apply H2|by apply H3].
  - unfold get_battle_by_index.
    destruct (index_loop _ _ _) as [b|] eqn:E; [|done].
    intros [= <- <-]. simpl. split; [by apply index_loop_some in E|].
    destruct (sanitize_roomid_facts
                ("sim-battle-" +:+ str_of_int (default 0 (arg_battle_index args))) "sim")
      as (H1 & H2 & H3).
    split; [done|]. split; [by apply H2|by apply H3].
Qed.

Lemma main_built_witness :
  In (mkBlock "A vs B" ["|turn|1"]) (iter_battles (text_of ["[[[[["; "A vs B"; "|turn|1"; "]]]]]"])).
Proof.
  apply (main_built (mkArgs None (Some "a VS b") 0 false None None None None None None false)
                    "TestOutput/output1.txt"
                    (text_of ["[[[[["; "A vs B"; "|turn|1"; "]]]]]"]) 0
                    (mkBlock "A vs B" ["|turn|1"])
                    (build_replay_object 0 ["|turn|1"] "avsb0" false)).
  reflexivity.
Defined.



(** X24.  A name given on the command line, for one side or for both, is
    the name in the replay object: the side's own name wins when it is not
    empty, else the common one; it must fit in one field (not empty, no
    pipe), and so must the avatar that goes with it. *)
Theorem main_names args path (f : file) now block replay :
  main args path (Some f) now = Built block replay ->
  (forall n, or_opt (arg_p1_name args) (arg_both_name args) = Some n ->
             n <> EmptyString -> free_of PIPE n = true ->
             free_opt (or_opt (arg_p1_avatar args) (arg_both_avatar args)) ->
             p1 replay = n)
  /\ (forall n, or_opt (arg_p2_name args) (arg_both_name args) = Some n ->
                n <> EmptyString -> free_of PIPE n = true ->
                free_opt (or_opt (arg_p2_avatar args) (arg_both_avatar args)) ->
                p2 replay = n).
Proof.
  unfold main. destruct (arg_list_matchups args); [done|].
  set (sel := match arg_matchup args with Some _ => _ | None => _ end).
  destruct (sel.1) as [e|b]; [done|]. intros [= <- <-]. split.
  - intros n -> Hne Hf Hav.
    unfold build_replay_object. rewrite scan_fold. simpl.
    destruct (override_offers_p1 n Hne Hf
                (or_opt (arg_p2_name args) (arg_both_name args)) _
                (or_opt (arg_p2_avatar args) (arg_both_avatar args))
                (protocol_lines b) Hav) as [Hall Hex].
    by apply last_match_only.
  - intros n -> Hne Hf Hav.
    unfold build_replay_object. rewrite scan_fold. simpl.
    destruct (override_offers_p2 n Hne Hf
                (or_opt (arg_p1_name args) (arg_both_name args))
                (or_opt (arg_p1_avatar args) (arg_both_avatar args)) _
                (protocol_lines b) Hav) as [Hall Hex].
    by apply last_match_only.
Qed.

Lemma main_names_witness :
  p2 (build_replay_object 0
        (override_players (Some "Ann") (Some "Zed") None None ["|player|p2|Bo|7|"])
        "simbattle0" false) = "Zed".
Proof.
  apply (proj2 (main_names
                  (mkArgs None None 0 false (Some "Ann") (Some "") None None
                          (Some "Zed") None false)
                  "TestOutput/output1.txt"
                  (text_of ["[[[[["; "A vs B"; "|player|p2|Bo|7|"; "]]]]]"]) 0
                  (mkBlock "A vs B" ["|player|p2|Bo|7|"])
                  _ eq_refl) "Zed" eq_refl ltac:(discriminate) eq_refl I).
Defined.

End driver.

(** * The completeness check of the rerun wrapper *)

Section wrapper.

(** What the check looks for: the end sigil and a newline. *)
Let needle : string := "]]]]]" +:+ String LF EmptyString.

Lemma prefix_cons a p b s :
  String.prefix (String a p) (String b s) = Ascii.eqb a b && String.prefix p s.
Proof.
  change (String.prefix (String a p) (String b s))
    with (match ascii_dec a b with left _ => String.prefix p s | right _ => false end).
  destruct (ascii_dec a b) as [->|Hne].
  - by rewrite Ascii.eqb_refl.
  - apply Ascii.eqb_neq in Hne. by rewrite Hne.
Qed.

Lemma prefix_line p : forall l rest,
  free_of LF p = true -> free_of LF l = true ->
  String.prefix (p +:+ String LF EmptyString) (l +:+ String LF rest) = String.eqb l p.
Proof.
  induction p as [|d p IH]; intros l rest Hp Hl.
  - destruct l as [|c l]; [by destruct rest|].
    simpl in Hl. apply andb_true_iff in Hl as [Hc _]. apply negb_true_iff in Hc.
    change (String.prefix (String LF EmptyString) (String c (l +:+ String LF rest)) = false).
    by rewrite prefix_cons, Ascii.eqb_sym, Hc.
  - simpl in Hp. apply andb_true_iff in Hp as [Hd Hp]. apply negb_true_iff in Hd.
    destruct l as [|c l].
    + change (String.prefix (String d (p +:+ String LF EmptyString)) (String LF rest) = false).
      by rewrite prefix_cons, Hd.
    + simpl in Hl. apply andb_true_iff in Hl as [_ Hl].
      change (String.prefix (String d (p +:+ String LF EmptyString))
                            (String c (l +:+ String LF rest))
              = String.eqb (String c l) (String d p)).
      rewrite prefix_cons, IH by done. simpl. by rewrite Ascii.eqb_sym.
Qed.

Lemma count_line l : forall rest,
  free_of LF l = true ->
  count_from needle 0 (l +:+ String LF rest)
  = ((if has_suffix END l then 1 else 0) + count_from needle 0 rest)%nat.
Proof.
  induction l as [|c l IH]; intros rest Hl.
  - by destruct rest.
  - pose proof Hl as Hl'. simpl in Hl'. apply andb_true_iff in Hl' as [_ Hl'].
    change (has_suffix END (String c l))
      with (String.eqb (String c l) END || has_suffix END l).
    change (count_from needle 0 (String c l +:+ String LF rest))
      with (if String.prefix needle (String c l +:+ String LF rest)
            then S (count_from needle (String.length needle - 1) (l +:+ String LF rest))
            else count_from needle 0 (l +:+ String LF rest)).
    unfold needle at 1. change "]]]]]" with END. rewrite (prefix_line END) by done.
    destruct (String.eqb_spec (String c l) END) as [E|_].
    + injection E as -> ->. reflexivity.
    + simpl orb. by apply IH.
Qed.

Lemma count_text_of lines :
  Forall one_line lines ->
  count_from needle 0 (text_of lines) = length (List.filter (has_suffix END) lines).
Proof.
  induction 1 as [|l lines [Hl _] _ IH]; [done|].
  simpl. rewrite count_line, IH by done. by destruct (has_suffix END l).
Qed.

Lemma read_text_text_of lines :
  Forall one_line lines -> read_text (text_of lines) = text_of lines.
Proof.
  unfold read_text. induction 1 as [|l lines [_ Hc] _ IH]; [done|].
  simpl. by rewrite universal_newlines_app_line, IH.
Qed.

(** X25.  On a file written line by line, the wrapper counts the lines that
    end with the end sigil, and accepts the file exactly when there are at
    least [min_battles] of them; a missing file is never accepted. *)
Theorem is_output_valid_counts lines min_battles :
  Forall one_line lines ->
  is_output_valid (Some (text_of lines)) min_battles
  = (min_battles <=? Z.of_nat (length (List.filter (has_suffix END) lines)))
  /\ is_output_valid None min_battles = false.
Proof.
  intros H. split; [|done]. unfold is_output_valid, str_count.
  rewrite read_text_text_of by done. simpl truthy. cbv iota.
  by rewrite <- (count_text_of lines H).
Qed.

Lemma is_output_valid_counts_witness :
  is_output_valid
    (Some (text_of ["[[[[["; "A vs B"; "]]]]]"; "x]]]]]"; "]]]]] "; "]]]]]]"])) 3 = true.
Proof.
  rewrite (proj1 (is_output_valid_counts
                    ["[[[[["; "A vs B"; "]]]]]"; "x]]]]]"; "]]]]] "; "]]]]]]"] 3
                    ltac:(repeat constructor))).
  reflexivity.
Defined.

Lemma rtrim_app_keep sp a t :
  rtrim sp t <> EmptyString -> rtrim sp (a +:+ t) = a +:+ rtrim sp t.
Proof.
  intros H. induction a as [|c a IH]; [done|].
  change (String c a +:+ t) with (String c (a +:+ t)).
  change (String c a +:+ rtrim sp t) with (String c (a +:+ rtrim sp t)).
  simpl. rewrite IH.
  destruct (a +:+ rtrim sp t) eqn:E; [|done].
  destruct a; [|done]. by destruct H.
Qed.

Lemma has_suffix_unfold p s :
  has_suffix p s =
  String.eqb s p || match s with EmptyString => false | String _ r => has_suffix p r end.
Proof. by destruct s. Qed.

Lemma has_suffix_app p a : has_suffix p (a +:+ p) = true.
Proof.
  induction a as [|c a IH].
  - change (EmptyString +:+ p) with p. by rewrite has_suffix_unfold, String.eqb_refl.
  - change (String c a +:+ p) with (String c (a +:+ p)).
    rewrite has_suffix_unfold, IH. apply orb_true_r.
Qed.

Lemma bare_end_marker l :
  strip l = END -> rtrim isspace l = l -> has_suffix END l = true.
Proof.
  intros Hs Hr. destruct (ltrim_infix isspace l) as [a Ha].
  unfold strip, trim in Hs.
  assert (l = a +:+ END) as ->; [|apply has_suffix_app].
  rewrite <- Hr. rewrite Ha at 1. rewrite rtrim_app_keep; by rewrite Hs.
Qed.

Lemma end_markers_counted lines :
  Forall (fun l => strip l = END -> rtrim isspace l = l) lines ->
  (length (List.filter is_end (markers lines))
   <= length (List.filter (has_suffix END) lines))%nat.
Proof.
  unfold markers. induction 1 as [|l lines Hl _ IH]; [done|].
  change (omap classify (l :: lines))
    with (match classify l with
          | Some m => m :: omap classify lines
          | None => omap classify lines
          end).
  change (List.filter (has_suffix END) (l :: lines))
    with (if has_suffix END l then l :: List.filter (has_suffix END) lines
          else List.filter (has_suffix END) lines).
  destruct (classify l) as [[]|] eqn:Ec.
  - cbn [List.filter is_end]. destruct (has_suffix END l); cbn [length]; lia.
  - pose proof (classify_end l Ec) as He.
    rewrite (bare_end_marker l He (Hl He)). cbn [List.filter is_end length]. lia.
  - destruct (has_suffix END l); cbn [length]; lia.
Qed.

(** X26.  The wrapper and the viewer agree in one direction: on a file
    written line by line whose end-marker lines carry no trailing white
    space, the wrapper accepts any [min_battles] up to the number of
    blocks the viewer reads in Marked mode. *)
Theorem viewer_blocks_pass_wrapper lines min_battles :
  Forall one_line lines ->
  Forall (fun l => strip l = END -> rtrim isspace l = l) lines ->
  min_battles <= Z.of_nat (length (iter_battles_marked (text_of lines))) ->
  is_output_valid (Some (text_of lines)) min_battles = true.
Proof.
  intros H1 H2 Hmin. unfold is_output_valid, str_count.
  rewrite read_text_text_of by done. simpl truthy. cbv iota.
  fold needle. rewrite (count_text_of lines H1).
  unfold iter_battles_marked in Hmin. rewrite read_lines_text_of in Hmin by done.
  destruct (marked_run_bound lines outside) as [Hb _].
  pose proof (end_markers_counted lines H2). apply Z.leb_le. lia.
Qed.

Lemma viewer_blocks_pass_wrapper_witness :
  is_output_valid
    (Some (text_of ["[[[[["; "A vs B"; "|turn|1"; "  ]]]]]"; "[[[[["; "C vs D"; "]]]]]"])) 2
  = true.
Proof.
  apply (viewer_blocks_pass_wrapper
           ["[[[[["; "A vs B"; "|turn|1"; "  ]]]]]"; "[[[[["; "C vs D"; "]]]]]"] 2).
  - repeat constructor.
  - repeat constructor; intros; reflexivity || discriminate.
  - vm_compute. discriminate.
Defined.

End wrapper.

(** * Edge behaviour of reading and listing *)

Section edges.

Lemma universal_newlines_app_crlf l t :
  free_of CR l = true ->
  universal_newlines (l +:+ String CR (String LF t)) = l +:+ String LF (universal_newlines t).
Proof.
  induction l as [|c l IH]; simpl.
  - intros _. change (EmptyString +:+ String CR (String LF t)) with (String CR (String LF t)).
    done.
  - destruct (Ascii.eqb c CR) eqn:E; simpl; [done|]. intros H.
    change (String c l +:+ String CR (String LF t))
      with (String c (l +:+ String CR (String LF t))).
    simpl. rewrite IH by done. by rewrite ?E.
Qed.

Lemma universal_newlines_crlf lines :
  Forall one_line lines ->
  universal_newlines (text_of_crlf lines) = universal_newlines (text_of lines).
Proof.
  induction 1 as [|l lines [_ Hc] _ IH]; [done|]. simpl.
  by rewrite universal_newlines_app_crlf, universal_newlines_app_line, IH.
Qed.

(** X27.  Line endings do not matter: a file whose lines end with CR LF is
    segmented into the blocks of the same file with LF endings. *)
Theorem iter_battles_crlf lines :
  Forall one_line lines ->
  iter_battles (text_of_crlf lines) = iter_battles (text_of lines).
Proof.
  intros H. unfold iter_battles, iter_battles_marked, parse_single_battle_fallback,
    read_text, read_lines.
  by rewrite (universal_newlines_crlf lines H).
Qed.

Lemma iter_battles_crlf_witness :
  iter_battles (text_of_crlf ["[[[[["; "A vs B"; "|turn|1"; "]]]]]"])
  = [mkBlock "A vs B" ["|turn|1"]].
Proof.
  rewrite (iter_battles_crlf ["[[[[["; "A vs B"; "|turn|1"; "]]]]]"]); [reflexivity|].
  repeat constructor.
Defined.

(** X28.  Both sigils occurring somewhere in the text select Marked mode
    even when no line is an end marker; nothing is then emitted, and
    selecting index 0 fails. *)
Theorem sigils_without_end_line (f : file) :
  contains START (read_text f) = true -> contains END (read_text f) = true ->
  Forall (fun l => strip l <> END) (read_lines f) ->
  iter_battles f = [] /\ get_battle_by_index f 0 = inl (out_of_range 0).
Proof.
  intros Hs He Hl.
  assert (iter_battles f = []) as Hnil.
  { unfold iter_battles. rewrite Hs, He. simpl.
    unfold iter_battles_marked. by apply marked_run_no_end. }
  split; [done|]. unfold get_battle_by_index. by rewrite Hnil.
Qed.

Lemma sigils_without_end_line_witness :
  iter_battles (text_of ["A vs B [[[[[ first to five ]]]]]"; "|turn|1"]) = [].
Proof.
  apply (sigils_without_end_line (text_of ["A vs B [[[[[ first to five ]]]]]"; "|turn|1"]));
    [reflexivity|reflexivity|].
  repeat constructor; discriminate.
Defined.

Lemma most_common_length n counts :
  length (most_common n counts) = Nat.min (Z.to_nat n) (length counts).
Proof.
  unfold most_common. destruct (Z.leb_spec n 0).
  - by replace (Z.to_nat n) with 0%nat by lia.
  - by rewrite length_take, (Permutation_length (sort_desc_perm counts)).
Qed.

Lemma tally_total blocks : (tally blocks).2 = length blocks.
Proof. unfold tally. by rewrite tally_fold. Qed.

(** X29.  [list_matchups] reports that no battle was found exactly when the
    segmenter emits no block, which never happens in Fallback mode;
    otherwise it prints one heading and one row for each of the [top_n]
    most common headers, or for all of them when there are fewer. *)
Theorem list_matchups_rows (f : file) top_n :
  (iter_battles f = [] -> list_matchups f top_n = ["No battles found."])
  /\ (iter_battles f <> [] ->
      list_matchups f top_n <> ["No battles found."]
      /\ length (list_matchups f top_n)
         = S (Nat.min (Z.to_nat top_n) (length (tally (iter_battles f)).1)))
  /\ (contains START (read_text f) = false \/ contains END (read_text f) = false ->
      iter_battles f <> []).
Proof.
  split; [|split].
  - intros H. unfold list_matchups. by rewrite H.
  - intros H. unfold list_matchups.
    pose proof (tally_total (iter_battles f)) as Ht.
    destruct (tally (iter_battles f)) as [counts total]. simpl in *.
    destruct (Nat.eqb_spec total 0) as [E|E].
    { destruct (iter_battles f); [done|]. simpl in Ht. lia. }
    split.
    + intros Heq. discriminate Heq.
    + simpl. by rewrite length_map, most_common_length.
  - intros H. unfold iter_battles.
    assert (contains START (read_text f) && contains END (read_text f) = false) as ->.
    { destruct H as [-> | ->]; [done|apply andb_false_r]. }
    done.
Qed.

End edges.
